(** * auditor.evaluation.generative: the LLM evaluation engine

    A shallow embedding of [LLMEval] (src/auditor/evaluation/generative.py).
    The engine talks to three collaborators: the language model
    ([self.llm]), the paraphraser ([PerturbText]) and the behaviour
    checker ([self.expected_behavior]).  Each of them may keep state and
    may raise; the embedding threads one [World] through every call and
    records every call in a chronological trace, so that statements about
    which calls were made, in which order and with which arguments are
    statements about that trace. *)

From Stdlib Require Import SpecFloat.
From stdpp Require Import gmap strings list.

(** ** Python values

    A Python [float] is an IEEE 754 binary64 number; the two literals
    that occur below are [0.0] and [0.5]. *)
Definition float_zero : spec_float := S754_zero false.
Definition float_half : spec_float :=
  S754_finite false 4503599627370496 (-53).

(** Attribute values read off the model object are arbitrary Python
    objects; the ones that occur in practice are strings, numbers, booleans
    and [None]. *)
Inductive PyVal : Type :=
| PyStr (s : string)
| PyInt (z : Z)
| PyFloat (f : spec_float)
| PyBool (b : bool)
| PyNone.

Definition is_str (v : PyVal) : bool :=
  match v with PyStr _ => true | _ => false end.

(** Truthiness of an [Optional[bool]] argument, as tested by [if x:]. *)
Definition truthy (b : option bool) : bool :=
  match b with Some true => true | _ => false end.

(** Modelled from the spec: the enumeration [LLMEvalType] of
    auditor.utils.data, which is not part of the sources at hand.  The
    spec's EvaluationMode has the two members [robustness] and
    [correctness]; the engine only compares their [.value]s, which are
    taken to be the member names. *)
Inductive LLMEvalType : Type := robustness | correctness.

Definition value (t : LLMEvalType) : string :=
  match t with
  | robustness => "robustness"
  | correctness => "correctness"
  end.

(** The arguments the engine hands to the [PerturbText] constructor: the
    texts, [ner_pipeline], [batch_size] and [perturbations_per_sample]. *)
Module PerturbText.
Record t {NerPipeline : Type} : Type := mk {
  data : list string;
  ner_pipeline : option NerPipeline;
  batch_size : Z;
  perturbations_per_sample : Z;
}.
Global Arguments t : clear implicits.
Global Arguments mk {NerPipeline} _ _ _ _.
End PerturbText.

(** What [PerturbText.paraphrase] hands back: an object whose [data]
    attribute holds, per input text, the original followed by its
    paraphrases. *)
Module Dataset.
Record t : Type := mk { data : list (list string) }.
End Dataset.

(** Modelled from the spec: the record [LLMEvalResult] of
    auditor.utils.data (the spec's EvaluationResult), which is not part of
    the sources at hand.  Its fields are the keyword arguments of the one
    constructor call in [_evaluate_generations]. *)
Module LLMEvalResult.
Record t {Score : Type} : Type := mk {
  original_prompt : string;
  pre_context : option string;
  post_context : option string;
  reference_generation : string;
  perturbed_prompts : list string;
  perturbed_generations : list string;
  generation_kwargs : gmap string PyVal;
  result : list bool;
  metric : list Score;
  expected_behavior_desc : string;
  evaluation_type : LLMEvalType;
}.
Global Arguments t : clear implicits.
Global Arguments mk {Score} _ _ _ _ _ _ _ _ _ _ _.
End LLMEvalResult.

(** Exceptions: [Raised e] is an exception object [e] that a collaborator
    raised, of whatever class (a collaborator's own [IndexError]
    included); [IndexError] is the one that the engine's own indexing
    [data[0]] raises.  The two are told apart by where the exception
    arose, not by its class. *)
Inductive PyExn {E : Type} : Type :=
| IndexError
| Raised (e : E).
Global Arguments PyExn : clear implicits.

(** ** PromptAssembler: [LLMEval.construct_llm_input] *)

Definition default_delimiter : string := " ".

Definition construct_llm_input
    (prompt : string) (pre_context post_context : option string)
    (delimiter : string) : string :=
  let full_prompt :=
    match pre_context with
    | Some pre => (pre +:+ delimiter) +:+ prompt
    | None => prompt
    end in
  match post_context with
  | Some post => full_prompt +:+ (delimiter +:+ post)
  | None => full_prompt
  end.

(** [s] starts with [p], [s] ends with [q]: what Python's
    [str.startswith] and [str.endswith] decide. *)
Definition startswith (s p : string) : Prop :=
  exists rest, s = p +:+ rest.

Definition endswith (s q : string) : Prop :=
  exists front, s = front +:+ q.

(** ** Stand-in collaborators

    Small concrete collaborators on which the engine can be run: the
    world is the number of model calls made so far, exceptions are their
    messages, scores are integers. *)
Module Stub.

(** A model that answers every input with [answer]. *)
Definition llm_constant (answer : string)
    : string -> nat -> (string + string) * nat :=
  fun _ calls => (inr answer, S calls).

(** A model that raises on its call number [k] (counting from 0) and
    answers [answer] otherwise. *)
Definition llm_failing_at (k : nat) (answer : string)
    : string -> nat -> (string + string) * nat :=
  fun _ calls =>
    (if Nat.eqb calls k then inl "timeout" else inr answer, S calls).

(** The attributes of a hosted completion model: a provider name, a
    sampling temperature (a float) and a model name. *)
Definition hosted_attrs : string -> nat -> option PyVal :=
  fun name _ =>
    if String.eqb name "_llm_type" then Some (PyStr "openai")
    else if String.eqb name "temperature" then Some (PyFloat float_half)
    else if String.eqb name "model_name" then Some (PyStr "text-davinci-003")
    else None.

(** A model object with none of the three attributes. *)
Definition no_attrs : string -> nat -> option PyVal :=
  fun _ _ => None.

(** A paraphraser that returns, for each text, the text followed by the
    fixed alternatives [alts]. *)
Definition paraphrase_table (alts : list string)
    : PerturbText.t unit -> option spec_float -> nat -> (string + Dataset.t) * nat :=
  fun perturber _ calls =>
    (inr (Dataset.mk (map (fun text => text :: alts)
                          (PerturbText.data perturber))), calls).

(** A paraphraser that returns, for each text, the text followed by the
    requested number of rewordings, and raises on a negative request. *)
Definition paraphrase_repeat
    : PerturbText.t unit -> option spec_float -> nat -> (string + Dataset.t) * nat :=
  fun perturber _ calls =>
    let n := PerturbText.perturbations_per_sample perturber in
    if (n <? 0)%Z then (inl "negative count", calls)
    else
      (inr (Dataset.mk
              (map (fun text =>
                      text :: replicate (Z.to_nat n) ("In other words: " +:+ text))
                   (PerturbText.data perturber))), calls).

(** A checker that passes a generation when it equals the reference. *)
Definition check_exact
    : string -> list string -> nat -> (string + list (bool * Z)) * nat :=
  fun ref gens calls =>
    (inr (map (fun g => if String.eqb g ref then (true, 1%Z) else (false, 0%Z))
              gens), calls).

Definition descriptor : nat -> string :=
  fun _ => "Generations equal the reference.".

(** A model whose answer depends on its input alone. *)
Definition llm_echo : string -> nat -> (string + string) * nat :=
  fun input calls => (inr ("Answer to: " +:+ input), S calls).

(** A paraphraser that always raises. *)
Definition paraphrase_unavailable
    : PerturbText.t unit -> option spec_float -> nat -> (string + Dataset.t) * nat :=
  fun _ _ calls => (inl "paraphraser unavailable", calls).

(** A paraphraser that returns a dataset without any row. *)
Definition paraphrase_empty
    : PerturbText.t unit -> option spec_float -> nat -> (string + Dataset.t) * nat :=
  fun _ _ calls => (inr (Dataset.mk []), calls).

(** A checker that always raises. *)
Definition check_raising
    : string -> list string -> nat -> (string + list (bool * Z)) * nat :=
  fun _ _ calls => (inl "metric unavailable", calls).

End Stub.

(** ** Effects: a state-and-exception monad over the collaborators' world

    [World] is whatever state the collaborators keep between calls (a
    sampling seed, a call counter, a cache); [E] is the type of the
    exception objects they raise (instances of [Exception]); [Score] the
    type of the checker's scores. *)
Section Engine.

Context {World E Score NerPipeline : Type}.

(** One entry per interaction with the outside: the two log calls and
    the three collaborator calls, each with its arguments and with what
    came back. *)
Inductive Event : Type :=
| LogDebug (msg : string)
| LogError (msg : string)
| LLMCall (llm_input : string) (out : E + string)
| ParaphraseCall (perturber : PerturbText.t NerPipeline)
                 (temperature : option spec_float) (out : E + Dataset.t)
| CheckCall (reference_generation : string)
            (perturbed_generations : list string)
            (out : E + list (bool * Score)).

Record State : Type := mkState {
  world : World;
  trace : list Event;
}.

Definition M (A : Type) : Type := State -> (PyExn E + A) * State.

Definition ret {A} (a : A) : M A := fun st => (inr a, st).

Definition bind {A B} (m : M A) (k : A -> M B) : M B :=
  fun st =>
    match m st with
    | (inr a, st') => k a st'
    | (inl err, st') => (inl err, st')
    end.

Definition raise {A} (err : PyExn E) : M A := fun st => (inl err, st).

(** [try: body except Exception as err: handler err].  The exception
    objects of [E] are instances of [Exception]; leaving the body through
    a [BaseException] that is not one ([KeyboardInterrupt], [SystemExit]),
    which the handler would not see, is not modelled. *)
Definition try_except {A} (body : M A) (handler : PyExn E -> M A) : M A :=
  fun st =>
    match body st with
    | (inr a, st') => (inr a, st')
    | (inl err, st') => handler err st'
    end.

Definition emit (ev : Event) : M unit :=
  fun st => (inr tt, mkState (world st) (trace st ++ [ev])).

(** Call a collaborator: run it on the current world, record the call
    and its outcome, and turn a raised exception into [Raised]. *)
Definition call {A} (f : World -> (E + A) * World)
    (ev : E + A -> Event) : M A :=
  fun st =>
    let '(out, w') := f (world st) in
    let st' := mkState w' (trace st ++ [ev out]) in
    match out with
    | inr a => (inr a, st')
    | inl e => (inl (Raised e), st')
    end.

Definition LOG_debug (msg : string) : M unit := emit (LogDebug msg).
Definition LOG_error (msg : string) : M unit := emit (LogError msg).

#[local] Instance M_ret : MRet M := @ret.
#[local] Instance M_bind : MBind M := fun A B k m => bind m k.

(** Read-only access to the world (attribute reads). *)
Definition gets {A} (f : World -> A) : M A :=
  fun st => (inr (f (world st)), st).

(** *** The collaborators

    - [llm input] is [str(self.llm(input))];
    - [llm_getattr name] is the attribute [name] of [self.llm], [None]
      when the object has no such attribute (what [hasattr] tests); an
      attribute whose lookup raises anything but [AttributeError] is not
      modelled;
    - [paraphrase args temperature] is
      [PerturbText(args).paraphrase(temperature=temperature)]: the engine
      constructs the perturber and calls it back to back, and the two
      count as one call to the paraphraser;
    - [check reference generations] is [self.expected_behavior.check];
    - [descriptor] is [self.expected_behavior.descriptor]. *)
Variable llm : string -> World -> (E + string) * World.
Variable llm_getattr : string -> World -> option PyVal.
Variable paraphrase :
  PerturbText.t NerPipeline -> option spec_float -> World -> (E + Dataset.t) * World.
Variable check :
  string -> list string -> World -> (E + list (bool * Score)) * World.
Variable descriptor : World -> string.

(** *** [LLMEval._get_generation] *)
Definition _get_generation
    (prompt : string) (pre_context post_context : option string) : M string :=
  try_except
    (let llm_input :=
       construct_llm_input prompt pre_context post_context default_delimiter in
     call (llm llm_input) (LLMCall llm_input))
    (fun err =>
       LOG_error "Unable to fetch generations from the model.";;
       raise err).

(** *** [LLMEval.generate_alternative_prompts] *)

(** [xs[0]] on a Python list. *)
Definition index0 {A} (xs : list A) : M A :=
  match xs with
  | x :: _ => ret x
  | [] => raise IndexError
  end.

Definition generate_alternative_prompts
    (prompt : string) (perturbations_per_sample : Z)
    (temperature : option spec_float) (return_original : option bool)
    : M (list string) :=
  let perturber := PerturbText.mk [prompt] None 1 perturbations_per_sample in
  perturbed_dataset ← call (paraphrase perturber temperature)
                            (ParaphraseCall perturber temperature);
  if truthy return_original then
    index0 (Dataset.data perturbed_dataset)
  else
    first ← index0 (Dataset.data perturbed_dataset);
    mret (drop 1 first).

(** The defaults of the two optional parameters. *)
Definition default_temperature : option spec_float := Some float_zero.
Definition default_return_original : option bool := Some false.

(** *** [LLMEval._get_generation_details] *)
Definition _get_generation_details (w : World) : gmap string PyVal :=
  let details : gmap string PyVal := ∅ in
  let details :=
    match llm_getattr "_llm_type" w with
    | Some v => <["Provider" := v]> details
    | None => details
    end in
  let details :=
    match llm_getattr "temperature" w with
    | Some v => <["Temperature" := v]> details
    | None => details
    end in
  let details :=
    match llm_getattr "model_name" w with
    | Some v => <["Model Name" := v]> details
    | None => details
    end in
  details.

(** *** [LLMEval._evaluate_generations] *)

(** The [for alt_prompt in evaluate_prompts] loop, appending to
    [alternative_generations]. *)
Fixpoint fetch_generations
    (evaluate_prompts : list string) (pre_context post_context : option string)
    (alternative_generations : list string) : M (list string) :=
  match evaluate_prompts with
  | [] => mret alternative_generations
  | alt_prompt :: rest =>
      resp ← _get_generation alt_prompt pre_context post_context;
      fetch_generations rest pre_context post_context
                        (alternative_generations ++ [resp])
  end.

Definition _evaluate_generations
    (prompt : string) (evaluation_type : LLMEvalType)
    (perturbations_per_sample : Z)
    (pre_context post_context : option string)
    (reference_generation : option string)
    (prompt_perturbations : option (list string))
    : M (LLMEvalResult.t Score) :=
  (* reference generation *)
  reference_generation ←
    match reference_generation with
    | None =>
        LOG_debug ("Fetching reference generation for the prompt: " +:+ prompt);;
        _get_generation prompt pre_context post_context
    | Some r => mret r
    end;
  (* create alternative prompt perturbations *)
  prompt_perturbations ←
    match prompt_perturbations with
    | None =>
        generate_alternative_prompts prompt perturbations_per_sample
          default_temperature default_return_original
    | Some ps => mret ps
    end;
  (* include the original prompt when evaluating correctness *)
  let evaluate_prompts :=
    if String.eqb (value evaluation_type) (value correctness)
    then [prompt] ++ prompt_perturbations
    else prompt_perturbations in
  (* generations for each of the perturbed prompts *)
  alternative_generations ←
    fetch_generations evaluate_prompts pre_context post_context [];
  (* create test result *)
  metric ← call (check reference_generation alternative_generations)
                 (CheckCall reference_generation alternative_generations);
  details ← gets _get_generation_details;
  desc ← gets descriptor;
  mret (LLMEvalResult.mk
          prompt pre_context post_context reference_generation
          evaluate_prompts alternative_generations details
          (map fst metric) (map snd metric) desc evaluation_type).

(** *** The two public entry points *)
Definition evaluate_prompt_robustness
    (prompt : string) (perturbations_per_sample : Z)
    (pre_context post_context : option string)
    (prompt_perturbations : option (list string))
    : M (LLMEvalResult.t Score) :=
  _evaluate_generations prompt robustness perturbations_per_sample
    pre_context post_context None prompt_perturbations.

Definition evaluate_prompt_correctness
    (prompt : string) (reference_generation : string)
    (perturbations_per_sample : Z)
    (pre_context post_context : option string)
    (alternative_prompts : option (list string))
    : M (LLMEvalResult.t Score) :=
  _evaluate_generations prompt correctness perturbations_per_sample
    pre_context post_context (Some reference_generation) alternative_prompts.

(** ** The runs of [_evaluate_generations], stage by stage

    The evaluated prompt list, as the [if] on the evaluation type
    builds it. *)
Definition evaluated_prompts (evaluation_type : LLMEvalType)
    (prompt : string) (prompt_perturbations : list string) : list string :=
  if String.eqb (value evaluation_type) (value correctness)
  then [prompt] ++ prompt_perturbations
  else prompt_perturbations.

(** The perturber that [generate_alternative_prompts] constructs. *)
Definition perturber_for (prompt : string) (perturbations_per_sample : Z)
    : PerturbText.t NerPipeline :=
  PerturbText.mk [prompt] None 1 perturbations_per_sample.

(** ** Reading a trace *)

Definition llm_calls (tr : list Event) : list (string * (E + string)) :=
  omap (fun ev => match ev with LLMCall i o => Some (i, o) | _ => None end) tr.

Definition paraphrase_calls (tr : list Event)
    : list (PerturbText.t NerPipeline * option spec_float * (E + Dataset.t)) :=
  omap (fun ev => match ev with ParaphraseCall p t o => Some (p, t, o) | _ => None end) tr.

Definition check_calls (tr : list Event)
    : list (string * list string * (E + list (bool * Score))) :=
  omap (fun ev => match ev with CheckCall r gs o => Some (r, gs, o) | _ => None end) tr.

(** The events a run appended: the final trace without the initial one. *)
Definition new_events (st st' : State) : list Event :=
  drop (length (trace st)) (trace st').

(** The candidate prompts of a run: the caller's list when one was
    handed in, otherwise what the one paraphraser call of the run
    returned, without the entry at inner index 0. *)
Definition candidate_prompts (prompt_perturbations : option (list string))
    (evs : list Event) : list string :=
  match prompt_perturbations with
  | Some ps => ps
  | None =>
      match paraphrase_calls evs with
      | [(_, _, inr ds)] =>
          match Dataset.data ds with
          | first :: _ => drop 1 first
          | [] => []
          end
      | _ => []
      end
  end.

(** The model call that fetched the reference, when there was one. *)
Definition reference_fetch (reference_generation : option string)
    (llm_input : string) (ref : string) : list (string * (E + string)) :=
  match reference_generation with
  | Some _ => []
  | None => [(llm_input, inr ref)]
  end.

(** The PerturbationProvider's contract: one inner list per input text,
    with the text itself at inner index 0 and as many paraphrases after
    it as were asked for. *)
Definition paraphraser_contract : Prop :=
  forall perturber temperature w ds w',
    paraphrase perturber temperature w = (inr ds, w') ->
    Forall2
      (fun text inner =>
         exists paras,
           inner = text :: paras /\
           Z.of_nat (length paras) = PerturbText.perturbations_per_sample perturber)
      (PerturbText.data perturber) (Dataset.data ds).

(** The reference generation is there to be used: handed in, or the
    model answers the assembled original prompt in the starting world. *)
Definition reference_obtained (reference_generation : option string)
    (prompt : string) (pre_context post_context : option string)
    (st : State) : Prop :=
  match reference_generation with
  | Some _ => True
  | None =>
      exists g w1,
        llm (construct_llm_input prompt pre_context post_context default_delimiter)
            (world st) = (inr g, w1)
  end.

(** The BehaviorChecker's contract: one (pass, score) pair per candidate
    generation. *)
Definition checker_contract : Prop :=
  forall ref gens w m w',
    check ref gens w = (inr m, w') -> length m = length gens.

(** The assembled input for [prompt] as [_get_generation] builds it. *)
Definition assembled (pre_context post_context : option string)
    (prompt : string) : string :=
  construct_llm_input prompt pre_context post_context default_delimiter.

Definition error_msg : string := "Unable to fetch generations from the model.".
Definition debug_msg (prompt : string) : string :=
  "Fetching reference generation for the prompt: " +:+ prompt.

(** The events of successful fetches for [ps], answered by [gens]. *)
Definition fetch_ok_events (pre_context post_context : option string)
    (ps gens : list string) : list Event :=
  zip_with (fun p g => LLMCall (assembled pre_context post_context p) (inr g))
           ps gens.

(** The events of a fetch that raised [e]. *)
Definition fetch_failed_events (pre_context post_context : option string)
    (p : string) (e : E) : list Event :=
  [LLMCall (assembled pre_context post_context p) (inl e); LogError error_msg].

(** How the reference generation was obtained: handed in by the caller
    (no event), or fetched from the model for the assembled original
    prompt (a debug line and one successful model call). *)
Inductive reference_resolved (prompt : string) (pre post : option string)
    (w0 : World) : option string -> string -> list Event -> Prop :=
| ref_supplied r :
    reference_resolved prompt pre post w0 (Some r) r []
| ref_fetched g w1 :
    llm (assembled pre post prompt) w0 = (inr g, w1) ->
    reference_resolved prompt pre post w0 None g
      (LogDebug (debug_msg prompt) :: fetch_ok_events pre post [prompt] [g]).

(** How the candidate prompts were obtained: handed in, or taken from
    one paraphraser call as [data[0][1:]]. *)
Inductive candidates_resolved (prompt : string) (n : Z)
    : option (list string) -> list string -> list Event -> Prop :=
| cands_supplied ps :
    candidates_resolved prompt n (Some ps) ps []
| cands_generated ds first others :
    Dataset.data ds = first :: others ->
    candidates_resolved prompt n None (drop 1 first)
      [ParaphraseCall (perturber_for prompt n) default_temperature (inr ds)].

(** Every run of [_evaluate_generations] has one of six shapes; the
    list is the trace the run appends, [w0] is the world the run starts
    in and the [World] index is the one it ends in. *)
Inductive eval_run (prompt : string) (ty : LLMEvalType) (n : Z)
    (pre post : option string) (ref_opt : option string)
    (cands_opt : option (list string)) (w0 : World)
    : World -> PyExn E + LLMEvalResult.t Score -> list Event -> Prop :=
| run_reference_failed w e :
    ref_opt = None ->
    llm (assembled pre post prompt) w0 = (inl e, w) ->
    eval_run prompt ty n pre post ref_opt cands_opt w0 w (inl (Raised e))
      (LogDebug (debug_msg prompt) :: fetch_failed_events pre post prompt e)
| run_paraphrase_raised w ref evs1 e :
    reference_resolved prompt pre post w0 ref_opt ref evs1 ->
    cands_opt = None ->
    eval_run prompt ty n pre post ref_opt cands_opt w0 w (inl (Raised e))
      (evs1 ++ [ParaphraseCall (perturber_for prompt n) default_temperature (inl e)])
| run_paraphrase_empty w ref evs1 ds :
    reference_resolved prompt pre post w0 ref_opt ref evs1 ->
    cands_opt = None ->
    Dataset.data ds = [] ->
    eval_run prompt ty n pre post ref_opt cands_opt w0 w (inl IndexError)
      (evs1 ++ [ParaphraseCall (perturber_for prompt n) default_temperature (inr ds)])
| run_fetch_failed w ref evs1 cands evs2 k p e gens :
    reference_resolved prompt pre post w0 ref_opt ref evs1 ->
    candidates_resolved prompt n cands_opt cands evs2 ->
    evaluated_prompts ty prompt cands !! k = Some p ->
    length gens = k ->
    eval_run prompt ty n pre post ref_opt cands_opt w0 w (inl (Raised e))
      (evs1 ++ evs2
       ++ fetch_ok_events pre post (take k (evaluated_prompts ty prompt cands)) gens
       ++ fetch_failed_events pre post p e)
| run_check_raised w ref evs1 cands evs2 gens e :
    reference_resolved prompt pre post w0 ref_opt ref evs1 ->
    candidates_resolved prompt n cands_opt cands evs2 ->
    length gens = length (evaluated_prompts ty prompt cands) ->
    eval_run prompt ty n pre post ref_opt cands_opt w0 w (inl (Raised e))
      (evs1 ++ evs2
       ++ fetch_ok_events pre post (evaluated_prompts ty prompt cands) gens
       ++ [CheckCall ref gens (inl e)])
| run_ok w3 w ref evs1 cands evs2 gens m :
    reference_resolved prompt pre post w0 ref_opt ref evs1 ->
    candidates_resolved prompt n cands_opt cands evs2 ->
    length gens = length (evaluated_prompts ty prompt cands) ->
    check ref gens w3 = (inr m, w) ->
    eval_run prompt ty n pre post ref_opt cands_opt w0 w
      (inr (LLMEvalResult.mk prompt pre post ref
              (evaluated_prompts ty prompt cands) gens
              (_get_generation_details w)
              (map fst m) (map snd m) (descriptor w) ty))
      (evs1 ++ evs2
       ++ fetch_ok_events pre post (evaluated_prompts ty prompt cands) gens
       ++ [CheckCall ref gens (inr m)]).

(** The first stage on its own. *)
Definition resolve_reference (prompt : string) (pre post : option string)
    (reference_generation : option string) : M string :=
  match reference_generation with
  | None =>
      LOG_debug ("Fetching reference generation for the prompt: " +:+ prompt);;
      _get_generation prompt pre post
  | Some r => mret r
  end.

(** The last two stages on their own: fetch every generation, then
    check and build the record. *)
Definition score_generations (prompt : string) (ty : LLMEvalType)
    (pre post : option string) (ref : string) (eps : list string)
    : M (LLMEvalResult.t Score) :=
  alternative_generations ← fetch_generations eps pre post [];
  metric ← call (check ref alternative_generations)
                 (CheckCall ref alternative_generations);
  details ← gets _get_generation_details;
  desc ← gets descriptor;
  mret (LLMEvalResult.mk prompt pre post ref eps alternative_generations
          details (map fst metric) (map snd metric) desc ty).

(** ** Basic facts *)

Lemma llm_calls_app tr1 tr2 :
  llm_calls (tr1 ++ tr2) = llm_calls tr1 ++ llm_calls tr2.
Proof. apply omap_app. Qed.

Lemma paraphrase_calls_app tr1 tr2 :
  paraphrase_calls (tr1 ++ tr2) = paraphrase_calls tr1 ++ paraphrase_calls tr2.
Proof. apply omap_app. Qed.

Lemma check_calls_app tr1 tr2 :
  check_calls (tr1 ++ tr2) = check_calls tr1 ++ check_calls tr2.
Proof. apply omap_app. Qed.

Lemma llm_calls_fetch_ok pre post ps gens :
  llm_calls (fetch_ok_events pre post ps gens)
  = zip (assembled pre post <$> ps) (inr <$> gens).
Proof.
  revert gens. induction ps as [|p ps IH]; intros [|g gens]; simpl; try done.
  by rewrite <- IH.
Qed.

Lemma paraphrase_calls_fetch_ok pre post ps gens :
  paraphrase_calls (fetch_ok_events pre post ps gens) = [].
Proof.
  revert gens. induction ps as [|p ps IH]; intros [|g gens]; simpl; done.
Qed.

Lemma check_calls_fetch_ok pre post ps gens :
  check_calls (fetch_ok_events pre post ps gens) = [].
Proof.
  revert gens. induction ps as [|p ps IH]; intros [|g gens]; simpl; done.
Qed.

(** One fetch: the model is called once on the assembled input; an
    exception is logged and raised again. *)
Lemma get_generation_run prompt pre post st :
  _get_generation prompt pre post st =
    match llm (assembled pre post prompt) (world st) with
    | (inr g, w') =>
        (inr g, mkState w' (trace st ++ fetch_ok_events pre post [prompt] [g]))
    | (inl e, w') =>
        (inl (Raised e),
         mkState w' (trace st ++ fetch_failed_events pre post prompt e))
    end.
Proof.
  unfold _get_generation, try_except, call, assembled. simpl.
  destruct (llm _ (world st)) as [[e|g] w']; simpl; [|done].
  unfold mbind, M_bind, bind, LOG_error, emit, raise. simpl.
  by rewrite <- app_assoc.
Qed.

(** The loop: either every fetch succeeded, or the fetch at some index
    [k] raised after [k] successful ones, and nothing was fetched after
    it. *)
Lemma fetch_generations_run ps pre post acc st res st' :
  fetch_generations ps pre post acc st = (res, st') ->
  (exists gens,
      length gens = length ps /\
      res = inr (acc ++ gens) /\
      trace st' = trace st ++ fetch_ok_events pre post ps gens)
  \/
  (exists k p e gens,
      ps !! k = Some p /\
      length gens = k /\
      res = inl (Raised e) /\
      trace st' = trace st ++ fetch_ok_events pre post (take k ps) gens
                           ++ fetch_failed_events pre post p e).
Proof.
  revert acc st. induction ps as [|p ps IH]; intros acc st Hrun.
  - simpl in Hrun. injection Hrun as <- <-. left. exists [].
    by rewrite !app_nil_r.
  - simpl in Hrun. unfold mbind, M_bind, bind in Hrun.
    rewrite get_generation_run in Hrun.
    destruct (llm _ (world st)) as [[e|g] w'].
    + injection Hrun as <- <-. right. exists 0, p, e, []. by simpl.
    + apply IH in Hrun as [(gens & Hlen & -> & Htr)|(k & q & e & gens & Hk & Hlen & -> & Htr)].
      * left. exists (g :: gens). simpl in *. split; [by rewrite Hlen|].
        split; [by rewrite <- app_assoc|]. by rewrite Htr, <- app_assoc.
      * right. exists (S k), q, e, (g :: gens). simpl in *.
        split; [done|]. split; [by rewrite Hlen|]. split; [done|].
        by rewrite Htr, <- app_assoc.
Qed.

Lemma resolve_reference_run prompt pre post ref_opt st res st' :
  resolve_reference prompt pre post ref_opt st = (res, st') ->
  (exists ref evs,
      res = inr ref /\ trace st' = trace st ++ evs /\
      reference_resolved prompt pre post (world st) ref_opt ref evs)
  \/
  (exists e,
      ref_opt = None /\ res = inl (Raised e) /\
      llm (assembled pre post prompt) (world st) = (inl e, world st') /\
      trace st' = trace st ++ LogDebug (debug_msg prompt)
                               :: fetch_failed_events pre post prompt e).
Proof.
  destruct ref_opt as [r|]; simpl; intros Hrun.
  - injection Hrun as <- <-. left. exists r, []. rewrite app_nil_r.
    repeat split. constructor.
  - unfold mbind, M_bind, bind, LOG_debug, emit in Hrun.
    rewrite get_generation_run in Hrun. simpl in Hrun.
    destruct (llm _ (world st)) as [[e|g] w'] eqn:Hllm;
      injection Hrun as <- <-; simpl.
    + right. exists e. by rewrite <- app_assoc.
    + left. exists g, (LogDebug (debug_msg prompt) :: fetch_ok_events pre post [prompt] [g]).
      rewrite <- app_assoc. repeat split. by econstructor.
Qed.

(** The second stage on its own. *)
Lemma generate_alternative_prompts_run prompt n temperature return_original st res st' :
  generate_alternative_prompts prompt n temperature return_original st = (res, st') ->
  exists out,
    trace st' = trace st ++ [ParaphraseCall (perturber_for prompt n) temperature out] /\
    res = match out with
          | inl e => inl (Raised e)
          | inr ds =>
              match Dataset.data ds with
              | [] => inl IndexError
              | first :: _ =>
                  inr (if truthy return_original then first else drop 1 first)
              end
          end.
Proof.
  unfold generate_alternative_prompts, mbind, M_bind, bind, call, perturber_for.
  destruct (paraphrase _ temperature (world st)) as [[e|ds] w'] eqn:Hp; simpl.
  - intros [= <- <-]. by exists (inl e).
  - intros Hrun. exists (inr ds).
    destruct (truthy return_original), (Dataset.data ds) as [|first others];
      simpl in Hrun; injection Hrun as <- <-; done.
Qed.

Lemma evaluate_generations_stages prompt ty n pre post ref_opt cands_opt :
  _evaluate_generations prompt ty n pre post ref_opt cands_opt =
    (ref ← resolve_reference prompt pre post ref_opt;
     cands ← match cands_opt with
             | None =>
                 generate_alternative_prompts prompt n
                   default_temperature default_return_original
             | Some ps => mret ps
             end;
     score_generations prompt ty pre post ref
       (evaluated_prompts ty prompt cands)).
Proof. reflexivity. Qed.

Lemma score_generations_run prompt ty pre post ref eps st res st' :
  score_generations prompt ty pre post ref eps st = (res, st') ->
  (exists k p e gens,
      eps !! k = Some p /\ length gens = k /\ res = inl (Raised e) /\
      trace st' = trace st ++ fetch_ok_events pre post (take k eps) gens
                           ++ fetch_failed_events pre post p e)
  \/
  (exists gens e,
      length gens = length eps /\ res = inl (Raised e) /\
      trace st' = trace st ++ fetch_ok_events pre post eps gens
                           ++ [CheckCall ref gens (inl e)])
  \/
  (exists gens m w0,
      length gens = length eps /\
      check ref gens w0 = (inr m, world st') /\
      res = inr (LLMEvalResult.mk prompt pre post ref eps gens
                   (_get_generation_details (world st'))
                   (map fst m) (map snd m) (descriptor (world st')) ty) /\
      trace st' = trace st ++ fetch_ok_events pre post eps gens
                           ++ [CheckCall ref gens (inr m)]).
Proof.
  unfold score_generations. unfold mbind at 1. unfold M_bind, bind.
  destruct (fetch_generations eps pre post [] st) as [r3 st3] eqn:H3.
  apply fetch_generations_run in H3
    as [(gens & Hlen & -> & Htr3)|(k & p & e & gens & Hk & Hlen & -> & Htr3)].
  - unfold mbind, M_bind, bind, call, gets, mret, M_ret, ret. simpl.
    destruct (check ref gens (world st3)) as [[e|m] w'] eqn:Hc;
      intros [= <- <-]; simpl; right.
    + left. exists gens, e. by rewrite Htr3, <- app_assoc.
    + right. exists gens, m, (world st3). by rewrite Htr3, <- app_assoc.
  - intros [= <- <-]. left. by exists k, p, e, gens.
Qed.

Lemma evaluate_generations_run prompt ty n pre post ref_opt cands_opt st res st' :
  _evaluate_generations prompt ty n pre post ref_opt cands_opt st = (res, st') ->
  exists evs,
    trace st' = trace st ++ evs /\
    eval_run prompt ty n pre post ref_opt cands_opt (world st) (world st') res evs.
Proof.
  rewrite evaluate_generations_stages.
  unfold mbind at 1. unfold M_bind at 1. unfold bind at 1.
  destruct (resolve_reference prompt pre post ref_opt st) as [r1 st1] eqn:H1.
  apply resolve_reference_run in H1
    as [(ref & evs1 & -> & Htr1 & Href)|(e & -> & -> & Hllm & Htr1)]; cycle 1.
  { intros [= <- <-]. eexists. split; [exact Htr1|]. by constructor. }
  unfold mbind at 1. unfold M_bind at 1. unfold bind at 1.
  assert (Hstage2 :
    forall cands evs2 st2,
      candidates_resolved prompt n cands_opt cands evs2 ->
      trace st2 = trace st1 ++ evs2 ->
      score_generations prompt ty pre post ref
        (evaluated_prompts ty prompt cands) st2 = (res, st') ->
      exists evs, trace st' = trace st ++ evs /\
        eval_run prompt ty n pre post ref_opt cands_opt (world st) (world st') res evs).
  { intros cands evs2 st2 Hcands Htr2 Hrun.
    apply score_generations_run in Hrun
      as [(k & p & e & gens & Hk & Hlen & -> & Htr3)
         |[(gens & e & Hlen & -> & Htr3)
          |(gens & m & w0 & Hlen & Hc & -> & Htr3)]];
      (eexists; split; [by rewrite Htr3, Htr2, Htr1, <- !app_assoc|]).
    - by eapply run_fetch_failed.
    - by eapply run_check_raised.
    - by eapply run_ok. }
  destruct cands_opt as [ps|].
  - (* candidate prompts supplied *)
    apply (Hstage2 ps []); [constructor|]. simpl. by rewrite app_nil_r.
  - (* candidate prompts generated *)
    destruct (generate_alternative_prompts prompt n default_temperature
                default_return_original st1) as [r2 st2] eqn:H2.
    apply generate_alternative_prompts_run in H2 as (out & Htr2 & ->).
    destruct out as [e|ds]; [intros [= <- <-]|].
    { eexists. split; [by rewrite Htr2, Htr1, <- !app_assoc|]. by econstructor. }
    destruct (Dataset.data ds) as [|first others] eqn:Hds; [intros [= <- <-]|].
    { eexists. split; [by rewrite Htr2, Htr1, <- !app_assoc|].
      by eapply run_paraphrase_empty. }
    simpl truthy. cbv iota.
    eapply Hstage2; [by econstructor|done].
Qed.

(** ** What each stage leaves in the trace *)

Lemma new_events_app st st' evs :
  trace st' = trace st ++ evs -> new_events st st' = evs.
Proof. unfold new_events. intros ->. by rewrite drop_app_length. Qed.

Lemma reference_resolved_calls prompt pre post w0 ref_opt ref evs :
  reference_resolved prompt pre post w0 ref_opt ref evs ->
  llm_calls evs = reference_fetch ref_opt (assembled pre post prompt) ref /\
  paraphrase_calls evs = [] /\ check_calls evs = [].
Proof. by intros [r|g w1 Hllm]. Qed.

Lemma candidates_resolved_calls prompt n cands_opt cands evs :
  candidates_resolved prompt n cands_opt cands evs ->
  llm_calls evs = [] /\ check_calls evs = [] /\
  candidate_prompts cands_opt evs = cands /\
  (forall evs1 evs3,
      paraphrase_calls evs1 = [] -> paraphrase_calls evs3 = [] ->
      candidate_prompts cands_opt (evs1 ++ evs ++ evs3) = cands).
Proof.
  intros [ps|ds first others Hds]; repeat split; try done.
  - simpl. by rewrite Hds.
  - intros evs1 evs3 H1 H3. unfold candidate_prompts.
    rewrite !paraphrase_calls_app, H1, H3. simpl. by rewrite Hds.
Qed.

Lemma evaluated_prompts_mode ty prompt cands :
  evaluated_prompts ty prompt cands =
    match ty with
    | correctness => prompt :: cands
    | robustness => cands
    end.
Proof. by destruct ty. Qed.

Lemma string_app_cons c (s t : string) :
  String c s +:+ t = String c (s +:+ t).
Proof. reflexivity. Qed.

Lemma string_app_assoc (s1 s2 s3 : string) :
  (s1 +:+ s2) +:+ s3 = s1 +:+ (s2 +:+ s3).
Proof.
  induction s1 as [|c s1 IH]; [done|]. by rewrite !string_app_cons, IH.
Qed.

(** Every event of a successful batch of fetches is a successful model
    call on the assembled form of one of the prompts. *)
Lemma elem_of_fetch_ok_events pre post ps gens ev :
  ev ∈ fetch_ok_events pre post ps gens ->
  exists p g, p ∈ ps /\ ev = LLMCall (assembled pre post p) (inr g).
Proof.
  unfold fetch_ok_events. intros (p & g & -> & Hp & _)%elem_of_zip_with.
  by exists p, g.
Qed.

Lemma elem_of_reference_resolved prompt pre post w0 ref_opt ref evs ev :
  reference_resolved prompt pre post w0 ref_opt ref evs ->
  ev ∈ evs ->
  ev = LogDebug (debug_msg prompt) \/
  ev = LLMCall (assembled pre post prompt) (inr ref).
Proof.
  intros [r|g w1 Hllm] Hev.
  - by apply elem_of_nil in Hev.
  - unfold fetch_ok_events in Hev. simpl in Hev.
    rewrite !elem_of_cons, elem_of_nil in Hev. tauto.
Qed.

Lemma elem_of_candidates_resolved prompt n cands_opt cands evs ev :
  candidates_resolved prompt n cands_opt cands evs ->
  ev ∈ evs ->
  exists ds, ev = ParaphraseCall (perturber_for prompt n) default_temperature (inr ds).
Proof.
  intros [ps|ds first others Hds] Hev.
  - by apply elem_of_nil in Hev.
  - apply list_elem_of_singleton in Hev. by exists ds.
Qed.

(** The five kinds of event a run can leave, with the arguments the
    engine passes. *)
Lemma eval_run_events prompt ty n pre post ref_opt cands_opt w0 w res evs ev :
  eval_run prompt ty n pre post ref_opt cands_opt w0 w res evs ->
  ev ∈ evs ->
  ev = LogDebug (debug_msg prompt) \/
  ev = LogError error_msg \/
  (exists p out, ev = LLMCall (assembled pre post p) out) \/
  (exists out, ev = ParaphraseCall (perturber_for prompt n) default_temperature out) \/
  (exists ref gens out, ev = CheckCall ref gens out).
Proof.
  intros Hrun Hev.
  destruct Hrun; unfold fetch_failed_events in *;
    rewrite ?elem_of_app, ?elem_of_cons, ?elem_of_nil in Hev;
    repeat match goal with
      | H : _ \/ _ |- _ => destruct H
      | H : False |- _ => destruct H
      | H : ev ∈ fetch_ok_events _ _ _ _ |- _ =>
          apply elem_of_fetch_ok_events in H as (? & ? & _ & ->)
      | H : ev ∈ ?evs, R : reference_resolved _ _ _ _ _ _ ?evs |- _ =>
          destruct (elem_of_reference_resolved _ _ _ _ _ _ _ _ R H) as [->| ->];
          clear H
      | H : ev ∈ ?evs, R : candidates_resolved _ _ _ _ ?evs |- _ =>
          destruct (elem_of_candidates_resolved _ _ _ _ _ _ R H) as [? ->];
          clear H
      end;
    subst; eauto 10.
Qed.

Lemma assembled_startswith pre post p c :
  pre = Some c -> startswith (assembled pre post p) (c +:+ default_delimiter).
Proof.
  intros ->. unfold assembled, construct_llm_input.
  destruct post as [q|].
  - exists (p +:+ (default_delimiter +:+ q)). apply string_app_assoc.
  - by exists p.
Qed.

Lemma assembled_endswith pre post p c :
  post = Some c -> endswith (assembled pre post p) (default_delimiter +:+ c).
Proof.
  intros ->. unfold assembled, construct_llm_input. by eexists.
Qed.

Lemma reference_fetch_inputs ref_opt llm_input ref :
  (reference_fetch ref_opt llm_input ref).*1 =
    match ref_opt with None => [llm_input] | Some _ => [] end.
Proof. by destruct ref_opt. Qed.

(** The paraphraser is called at most once in a run, with the perturber
    for the bare prompt and the default temperature; it is not called
    when candidates were handed in or when the reference fetch raised. *)
Lemma eval_run_paraphrase_calls prompt ty n pre post ref_opt cands_opt w0 w res evs :
  eval_run prompt ty n pre post ref_opt cands_opt w0 w res evs ->
  (paraphrase_calls evs = [] /\
   (cands_opt = None ->
    ref_opt = None /\ exists e, llm (assembled pre post prompt) w0 = (inl e, w)))
  \/
  (cands_opt = None /\
   exists out,
     paraphrase_calls evs = [(perturber_for prompt n, default_temperature, out)]).
Proof.
  assert (Hstage : forall w1 cands evs2 rest,
    candidates_resolved prompt n cands_opt cands evs2 ->
    paraphrase_calls rest = [] ->
    (paraphrase_calls (evs2 ++ rest) = [] /\
     (cands_opt = None ->
      ref_opt = None /\ exists e, llm (assembled pre post prompt) w0 = (inl e, w1)))
    \/
    (cands_opt = None /\
     exists out,
       paraphrase_calls (evs2 ++ rest)
       = [(perturber_for prompt n, default_temperature, out)])).
  { intros w1 cands evs2 rest [ps|ds first others Hds] Hrest.
    - left. by split.
    - right. split; [done|]. exists (inr ds).
      by rewrite paraphrase_calls_app, Hrest. }
  intros [w' e0 Hnone Hllm
    |w' ref evs1 e0 R1 Hnone
    |w' ref evs1 ds R1 Hnone Hds
    |w' ref evs1 cands evs2 k p e0 gens R1 R2 Hk Hlen
    |w3 ref evs1 cands evs2 gens e0 R1 R2 Hlen
    |w3 w' ref evs1 cands evs2 gens m R1 R2 Hlen Hcheck];
    try (apply reference_resolved_calls in R1 as (_ & Hp1 & _);
         rewrite paraphrase_calls_app, Hp1; simpl).
  - left. split; [done|]. intros _. split; [done|]. by exists e0.
  - right. split; [done|]. by eexists.
  - right. split; [done|]. by eexists.
  - apply (Hstage _ _ _ _ R2).
    by rewrite paraphrase_calls_app, paraphrase_calls_fetch_ok.
  - apply (Hstage _ _ _ _ R2).
    by rewrite paraphrase_calls_app, paraphrase_calls_fetch_ok.
  - apply (Hstage _ _ _ _ R2).
    by rewrite paraphrase_calls_app, paraphrase_calls_fetch_ok.
Qed.

(** The inputs of the model calls of a run, in order, are an initial
    part of: the assembled original prompt (when the reference is
    fetched), then the assembled evaluated prompts. *)
Lemma eval_run_llm_inputs prompt ty n pre post ref_opt cands_opt w0 w res evs :
  eval_run prompt ty n pre post ref_opt cands_opt w0 w res evs ->
  (llm_calls evs).*1 `prefix_of`
    match ref_opt with None => [assembled pre post prompt] | Some _ => [] end
    ++ (assembled pre post
          <$> evaluated_prompts ty prompt (candidate_prompts cands_opt evs)).
Proof.
  assert (Hfst : forall ps gens : list string,
    length gens = length ps ->
    (zip (assembled pre post <$> ps) (@inr E string <$> gens)).*1
    = assembled pre post <$> ps).
  { intros ps gens Hlen. apply fst_zip. rewrite !length_fmap. lia. }
  intros [w' e0 Hnone Hllm
    |w' ref evs1 e0 R1 Hnone
    |w' ref evs1 ds R1 Hnone Hds
    |w' ref evs1 cands evs2 k p e0 gens R1 R2 Hk Hlen
    |w3 ref evs1 cands evs2 gens e0 R1 R2 Hlen
    |w3 w' ref evs1 cands evs2 gens m R1 R2 Hlen Hcheck];
    try (pose proof (reference_resolved_calls _ _ _ _ _ _ _ R1) as (Hl1 & Hp1 & _));
    try (pose proof (candidates_resolved_calls _ _ _ _ _ R2) as (Hl2 & _ & _ & Hc));
    rewrite ?llm_calls_app, ?Hl1, ?Hl2, ?llm_calls_fetch_ok; simpl;
    rewrite ?fmap_app, ?reference_fetch_inputs, ?app_nil_r.
  - subst ref_opt. by apply prefix_app_r.
  - by apply prefix_app_r.
  - by apply prefix_app_r.
  - rewrite Hc; [|done|by rewrite paraphrase_calls_app, paraphrase_calls_fetch_ok].
    apply prefix_app. rewrite Hfst; cycle 1.
    { rewrite length_take_le; [done|]. apply lookup_lt_Some in Hk. lia. }
    simpl. change [assembled pre post p] with (assembled pre post <$> [p]).
    rewrite <- fmap_app, <- (take_S_r _ _ _ Hk), fmap_take.
    apply prefix_take.
  - rewrite Hc; [|done|by rewrite paraphrase_calls_app, paraphrase_calls_fetch_ok].
    by rewrite Hfst.
  - rewrite Hc; [|done|by rewrite paraphrase_calls_app, paraphrase_calls_fetch_ok].
    by rewrite Hfst.
Qed.

(** With the reference handed in, no run logs a reference fetch. *)
Lemma eval_run_no_debug prompt ty n pre post r cands_opt w0 w res evs msg :
  eval_run prompt ty n pre post (Some r) cands_opt w0 w res evs ->
  LogDebug msg ∉ evs.
Proof.
  assert (H1 : forall w ref evs1,
    reference_resolved prompt pre post w (Some r) ref evs1 -> evs1 = []).
  { intros w1 ref evs1 R. by inversion R. }
  assert (H2 : forall cands evs2,
    candidates_resolved prompt n cands_opt cands evs2 -> LogDebug msg ∉ evs2).
  { intros cands evs2 R H.
    by destruct (elem_of_candidates_resolved _ _ _ _ _ _ R H). }
  assert (H3 : forall ps gens, LogDebug msg ∉ fetch_ok_events pre post ps gens).
  { intros ps gens (p & g & _ & [=])%elem_of_fetch_ok_events. }
  intros Hrun Hev.
  inversion Hrun as [w' e0 Hnone Hllm
    |w' ref evs1 e0 R1 Hnone
    |w' ref evs1 ds R1 Hnone Hds
    |w' ref evs1 cands evs2 k p e0 gens R1 R2 Hk Hlen
    |w3 ref evs1 cands evs2 gens e0 R1 R2 Hlen
    |w3 w' ref evs1 cands evs2 gens m R1 R2 Hlen Hcheck];
    [done|..]; subst; rewrite (H1 _ _ _ R1) in Hev;
    unfold fetch_failed_events in Hev;
    rewrite ?elem_of_app, ?elem_of_cons, ?elem_of_nil in Hev;
    repeat match goal with
      | H : _ \/ _ |- _ => destruct H
      | H : False |- _ => destruct H
      | H : LogDebug _ = _ |- _ => discriminate H
      | H : LogDebug msg ∈ fetch_ok_events _ _ _ _ |- _ => by apply H3 in H
      | H : LogDebug msg ∈ _ |- _ => by apply (H2 _ _ R2) in H
      end.
Qed.

Lemma perturbed_prompts_of_run prompt ty n pre post ref_opt cands_opt st r st' :
  _evaluate_generations prompt ty n pre post ref_opt cands_opt st = (inr r, st') ->
  LLMEvalResult.perturbed_prompts r =
    evaluated_prompts ty prompt (candidate_prompts cands_opt (new_events st st')).
Proof.
  intros Hrun. apply evaluate_generations_run in Hrun as (evs & Htr & Hrun).
  rewrite (new_events_app _ _ _ Htr).
  inversion Hrun as [| | | | |w3 w ref evs1 cands evs2 gens m Href Hcands Hlen Hcheck].
  subst. simpl.
  apply reference_resolved_calls in Href as (_ & Hp1 & _).
  apply candidates_resolved_calls in Hcands as (_ & _ & _ & Hc).
  rewrite Hc; [done|done|].
  by rewrite paraphrase_calls_app, paraphrase_calls_fetch_ok.
Qed.

(** The metadata mapping has an entry under each of its three keys
    exactly when the model object has the corresponding attribute, holds
    that attribute's value there, and has no other key. *)
Lemma generation_details_lookup w k :
  _get_generation_details w !! k =
    if decide (k = "Model Name") then llm_getattr "model_name" w
    else if decide (k = "Temperature") then llm_getattr "temperature" w
    else if decide (k = "Provider") then llm_getattr "_llm_type" w
    else None.
Proof.
  unfold _get_generation_details.
  destruct (llm_getattr "_llm_type" w), (llm_getattr "temperature" w),
    (llm_getattr "model_name" w);
    repeat case_decide; by simplify_map_eq.
Qed.

Lemma elem_of_candidates_resolved_data prompt n cands_opt cands evs ev :
  candidates_resolved prompt n cands_opt cands evs ->
  ev ∈ evs ->
  exists ds first others,
    ev = ParaphraseCall (perturber_for prompt n) default_temperature (inr ds) /\
    Dataset.data ds = first :: others.
Proof.
  intros [ps|ds first others Hds] Hev.
  - by apply elem_of_nil in Hev.
  - apply list_elem_of_singleton in Hev. by exists ds, first, others.
Qed.

(** Take a membership hypothesis on the events of a run apart, piece by
    piece, and discard the pieces that cannot hold the event. *)
Ltac in_events :=
  unfold fetch_failed_events in *;
  repeat match goal with
    | H : _ ∈ _ ++ _ |- _ => apply elem_of_app in H as [H|H]
    | H : _ ∈ _ :: _ |- _ => apply elem_of_cons in H as [H|H]
    | H : _ ∈ [] |- _ => by apply elem_of_nil in H
    | H : _ ∈ fetch_ok_events _ _ _ _ |- _ =>
        apply elem_of_fetch_ok_events in H as (? & ? & _ & H)
    | H : _ ∈ ?evs, R : reference_resolved _ _ _ _ _ _ ?evs |- _ =>
        apply (elem_of_reference_resolved _ _ _ _ _ _ _ _ R) in H as [H|H]
    | H : _ ∈ ?evs, R : candidates_resolved _ _ _ _ ?evs |- _ =>
        apply (elem_of_candidates_resolved_data _ _ _ _ _ _ R) in H
          as (? & ? & ? & H & ?)
    | H : @eq Event _ _ |- _ => progress simplify_eq
    end.

Lemma length_reference_fetch ref_opt llm_input ref :
  length (reference_fetch ref_opt llm_input ref)
  = match ref_opt with None => 1%nat | Some _ => 0%nat end.
Proof. by destruct ref_opt. Qed.

Lemma elem_of_paraphrase_calls (evs : list Event) perturber temperature out :
  ParaphraseCall perturber temperature out ∈ evs ->
  (perturber, temperature, out) ∈ paraphrase_calls evs.
Proof.
  intros Hev. apply list_elem_of_omap. by eexists.
Qed.

(** What a successful run leaves behind: one model call per evaluated
    prompt after the reference fetch, and one checker call, on the
    result's reference and generations, whose answer is the result's
    pass flags and scores. *)
Lemma eval_run_success prompt ty n pre post ref_opt cands_opt w0 w r evs :
  eval_run prompt ty n pre post ref_opt cands_opt w0 w (inr r) evs ->
  LLMEvalResult.perturbed_prompts r
    = evaluated_prompts ty prompt (candidate_prompts cands_opt evs) /\
  length (LLMEvalResult.perturbed_generations r)
    = length (LLMEvalResult.perturbed_prompts r) /\
  llm_calls evs =
    reference_fetch ref_opt (assembled pre post prompt)
                    (LLMEvalResult.reference_generation r)
    ++ zip (assembled pre post <$> LLMEvalResult.perturbed_prompts r)
           (inr <$> LLMEvalResult.perturbed_generations r) /\
  exists m,
    check_calls evs
    = [(LLMEvalResult.reference_generation r,
        LLMEvalResult.perturbed_generations r, inr m)] /\
    LLMEvalResult.result r = m.*1 /\
    LLMEvalResult.metric r = m.*2.
Proof.
  intros Hrun.
  inversion Hrun as [| | | | |w3 w' ref evs1 cands evs2 gens m R1 R2 Hlen Hcheck].
  subst. simpl.
  pose proof (reference_resolved_calls _ _ _ _ _ _ _ R1) as (Hl1 & Hp1 & Hc1).
  pose proof (candidates_resolved_calls _ _ _ _ _ R2) as (Hl2 & Hc2 & _ & Hc).
  rewrite Hc; [|done|by rewrite paraphrase_calls_app, paraphrase_calls_fetch_ok].
  split; [done|]. split; [done|]. split.
  - rewrite !llm_calls_app, Hl1, Hl2, llm_calls_fetch_ok. simpl.
    by rewrite app_nil_r.
  - exists m. split; [|done].
    by rewrite !check_calls_app, Hc1, Hc2, check_calls_fetch_ok.
Qed.

(** Why a run fails: a collaborator call of the run raised what the run
    raises, or the paraphraser returned a dataset without rows. *)
Lemma eval_run_failure prompt ty n pre post ref_opt cands_opt w0 w err evs :
  eval_run prompt ty n pre post ref_opt cands_opt w0 w (inl err) evs ->
  (err = IndexError /\
   exists perturber temperature ds,
     ParaphraseCall perturber temperature (inr ds) ∈ evs /\
     Dataset.data ds = [])
  \/
  (exists e,
      err = Raised e /\
      ((exists llm_input, LLMCall llm_input (inl e) ∈ evs) \/
       (exists perturber temperature,
           ParaphraseCall perturber temperature (inl e) ∈ evs) \/
       (exists ref gens, CheckCall ref gens (inl e) ∈ evs))).
Proof.
  intros Hrun.
  inversion Hrun as
    [w' e0 Hnone Hllm
    |w' ref evs1 e0 R1 Hnone
    |w' ref evs1 ds R1 Hnone Hds
    |w' ref evs1 cands evs2 k p e0 gens R1 R2 Hk Hlen
    |w' ref evs1 cands evs2 gens e0 R1 R2 Hlen
    | ]; subst; unfold fetch_failed_events.
  - right. exists e0. split; [done|]. left. eexists.
    apply list_elem_of_further, list_elem_of_here.
  - right. exists e0. split; [done|]. right. left. eexists _, _.
    apply elem_of_app. right. apply list_elem_of_here.
  - left. split; [done|]. eexists _, _, ds. split; [|done].
    apply elem_of_app. right. apply list_elem_of_here.
  - right. exists e0. split; [done|]. left. eexists.
    rewrite !elem_of_app. do 3 right. apply list_elem_of_here.
  - right. exists e0. split; [done|]. do 2 right. eexists _, _.
    rewrite !elem_of_app. do 3 right. apply list_elem_of_here.
Qed.

(** With the reference handed in, every checker call of a run is on that
    reference. *)
Lemma eval_run_check_reference
    prompt ty n pre post r cands_opt w0 w res evs ref gens out :
  eval_run prompt ty n pre post (Some r) cands_opt w0 w res evs ->
  CheckCall ref gens out ∈ evs ->
  ref = r.
Proof.
  intros Hrun Hev.
  inversion Hrun as
    [w' e0 Hnone Hllm
    |w' ref0 evs1 e0 R1 Hnone
    |w' ref0 evs1 ds R1 Hnone Hds
    |w' ref0 evs1 cands evs2 k p e0 gens0 R1 R2 Hk Hlen
    |w' ref0 evs1 cands evs2 gens0 e0 R1 R2 Hlen
    |w3 w' ref0 evs1 cands evs2 gens0 m R1 R2 Hlen Hcheck];
    subst; in_events; by inversion R1.
Qed.

(** ** The claims *)

(** C6. Prompt assembly is a function of its four inputs alone: with no
    context it returns the prompt; with a prefix context it returns
    prefix, delimiter, prompt; with a suffix context it appends
    delimiter, suffix; with both it returns prefix, delimiter, prompt,
    delimiter, suffix. *)
Theorem construct_llm_input_cases (p d pre post : string) :
  construct_llm_input p None None d = p /\
  construct_llm_input p (Some pre) None d = pre +:+ d +:+ p /\
  construct_llm_input p None (Some post) d = p +:+ d +:+ post /\
  construct_llm_input p (Some pre) (Some post) d
    = pre +:+ d +:+ p +:+ d +:+ post.
Proof.
  unfold construct_llm_input. repeat split.
  - apply string_app_assoc.
  - by rewrite !string_app_assoc.
Qed.

(** C1. In a successful evaluation the evaluated prompt list is, in
    correctness mode, the original prompt followed by the candidate
    prompts in order, and in robustness mode exactly the candidate
    prompt list. *)
Theorem evaluated_prompts_by_mode prompt ty n pre post ref_opt cands_opt st r st' :
  _evaluate_generations prompt ty n pre post ref_opt cands_opt st = (inr r, st') ->
  LLMEvalResult.perturbed_prompts r =
    match ty with
    | correctness => prompt :: candidate_prompts cands_opt (new_events st st')
    | robustness => candidate_prompts cands_opt (new_events st st')
    end.
Proof.
  intros Hrun. rewrite (perturbed_prompts_of_run _ _ _ _ _ _ _ _ _ _ Hrun).
  apply evaluated_prompts_mode.
Qed.

(** C2. When the checker returns one pair per candidate generation, a
    successful evaluation returns four lists of one length, and the model
    calls of the run (after the reference fetch, if any) are, in order,
    one call per evaluated prompt on its assembled input, answered by the
    generation at the same index. *)
Theorem result_lists_parallel prompt ty n pre post ref_opt cands_opt st r st' :
  checker_contract ->
  _evaluate_generations prompt ty n pre post ref_opt cands_opt st = (inr r, st') ->
  length (LLMEvalResult.perturbed_prompts r)
    = length (LLMEvalResult.perturbed_generations r) /\
  length (LLMEvalResult.perturbed_generations r)
    = length (LLMEvalResult.result r) /\
  length (LLMEvalResult.result r) = length (LLMEvalResult.metric r) /\
  llm_calls (new_events st st') =
    reference_fetch ref_opt (assembled pre post prompt)
                    (LLMEvalResult.reference_generation r)
    ++ zip (assembled pre post <$> LLMEvalResult.perturbed_prompts r)
           (inr <$> LLMEvalResult.perturbed_generations r) /\
  (forall i p,
      LLMEvalResult.perturbed_prompts r !! i = Some p ->
      exists g,
        LLMEvalResult.perturbed_generations r !! i = Some g /\
        llm_calls (new_events st st')
          !! (length (reference_fetch ref_opt (assembled pre post prompt)
                        (LLMEvalResult.reference_generation r)) + i)%nat
        = Some (construct_llm_input p pre post default_delimiter, inr g)).
Proof.
  intros Hcontract Hrun.
  apply evaluate_generations_run in Hrun as (evs & Htr & Hrun).
  rewrite (new_events_app _ _ _ Htr).
  inversion Hrun as [| | | | |w3 w ref evs1 cands evs2 gens m Href Hcands Hlen Hcheck].
  subst. simpl.
  apply Hcontract in Hcheck.
  apply reference_resolved_calls in Href as (Hl1 & _ & _).
  apply candidates_resolved_calls in Hcands as (Hl2 & _).
  assert (Hcalls :
    llm_calls (evs1 ++ evs2
               ++ fetch_ok_events pre post (evaluated_prompts ty prompt cands) gens
               ++ [CheckCall ref gens (inr m)])
    = reference_fetch ref_opt (assembled pre post prompt) ref
      ++ zip (assembled pre post <$> evaluated_prompts ty prompt cands)
             (inr <$> gens)).
  { rewrite !llm_calls_app, Hl1, Hl2, llm_calls_fetch_ok. simpl.
    by rewrite app_nil_r. }
  rewrite !length_map, Hcheck. repeat split; try done.
  intros i p Hp.
  destruct (lookup_lt_is_Some_2 gens i) as [g Hg].
  { rewrite Hlen. by eapply lookup_lt_Some. }
  exists g. split; [done|].
  rewrite Hcalls, lookup_app_r by lia.
  replace (_ + i - _)%nat with i by lia.
  apply lookup_zip_Some. by rewrite !list_lookup_fmap, Hp, Hg.
Qed.

(** C3. A generation fetch that raises, for the reference prompt or for
    any evaluated prompt, ends the run: the run raises that same
    exception and returns no result; the failed call and its log line are
    the last events of the run, so nothing is fetched after it; and the
    checker is not called. *)
Theorem generation_failure_is_fatal
    prompt ty n pre post ref_opt cands_opt st res st' llm_input e :
  _evaluate_generations prompt ty n pre post ref_opt cands_opt st = (res, st') ->
  LLMCall llm_input (inl e) ∈ new_events st st' ->
  res = inl (Raised e) /\
  (exists earlier,
      new_events st st' = earlier ++ [LLMCall llm_input (inl e); LogError error_msg]) /\
  check_calls (new_events st st') = [].
Proof.
  intros Hrun Hev. apply evaluate_generations_run in Hrun as (evs & Htr & Hrun).
  rewrite (new_events_app _ _ _ Htr) in *. clear Htr.
  assert (Hok : forall ps gens, LLMCall llm_input (inl e) ∉ fetch_ok_events pre post ps gens).
  { intros ps gens (p & g & _ & [=])%elem_of_fetch_ok_events. }
  assert (Href : forall w0 ref evs1,
             reference_resolved prompt pre post w0 ref_opt ref evs1 ->
             LLMCall llm_input (inl e) ∉ evs1).
  { intros w0 ref evs1 R H.
    by destruct (elem_of_reference_resolved _ _ _ _ _ _ _ _ R H). }
  assert (Hcands : forall cands evs2,
             candidates_resolved prompt n cands_opt cands evs2 ->
             LLMCall llm_input (inl e) ∉ evs2).
  { intros cands evs2 R H.
    by destruct (elem_of_candidates_resolved _ _ _ _ _ _ R H). }
  destruct Hrun as
    [w e0 Hnone Hllm
    |w ref evs1 e0 R1 Hnone
    |w ref evs1 ds R1 Hnone Hds
    |w ref evs1 cands evs2 k p e0 gens R1 R2 Hk Hlen
    |w ref evs1 cands evs2 gens e0 R1 R2 Hlen
    |w3 w ref evs1 cands evs2 gens m R1 R2 Hlen Hcheck];
    unfold fetch_failed_events in *;
    rewrite ?elem_of_app, ?elem_of_cons, ?elem_of_nil in Hev.
  - destruct Hev as [[=]|[[= -> ->]|[[=]|[]]]].
    split; [done|]. split; [by exists [LogDebug (debug_msg prompt)]|done].
  - destruct Hev as [H|[[=]|[]]]. by apply (Href _ _ _ R1) in H.
  - destruct Hev as [H|[[=]|[]]]. by apply (Href _ _ _ R1) in H.
  - destruct Hev as [H|[H|[H|[[= -> ->]|[[=]|[]]]]]];
      [by apply (Href _ _ _ R1) in H|by apply (Hcands _ _ R2) in H|by apply Hok in H|].
    split; [done|]. split.
    + eexists (evs1 ++ evs2 ++ fetch_ok_events pre post _ gens).
      by rewrite <- !app_assoc.
    + apply reference_resolved_calls in R1 as (_ & _ & Hc1).
      apply candidates_resolved_calls in R2 as (_ & Hc2 & _).
      by rewrite !check_calls_app, Hc1, Hc2, check_calls_fetch_ok.
  - destruct Hev as [H|[H|[H|[[=]|[]]]]];
      [by apply (Href _ _ _ R1) in H|by apply (Hcands _ _ R2) in H|by apply Hok in H].
  - destruct Hev as [H|[H|[H|[[=]|[]]]]];
      [by apply (Href _ _ _ R1) in H|by apply (Hcands _ _ R2) in H|by apply Hok in H].
Qed.

(** C4. In a successful robustness evaluation the reference generation
    of the result is what the model returned for the assembled original
    prompt (same contexts, default delimiter) in the first model call of
    the run; the entry point passes no reference of its own. *)
Theorem robustness_reference_is_fetched
    prompt n pre post cands_opt st r st' :
  evaluate_prompt_robustness prompt n pre post cands_opt st = (inr r, st') ->
  exists w1 later,
    llm (construct_llm_input prompt pre post default_delimiter) (world st)
      = (inr (LLMEvalResult.reference_generation r), w1) /\
    new_events st st' =
      LogDebug (debug_msg prompt)
      :: LLMCall (construct_llm_input prompt pre post default_delimiter)
                 (inr (LLMEvalResult.reference_generation r))
      :: later /\
    length (llm_calls later) = length (LLMEvalResult.perturbed_prompts r).
Proof.
  unfold evaluate_prompt_robustness. intros Hrun.
  apply evaluate_generations_run in Hrun as (evs & Htr & Hrun).
  rewrite (new_events_app _ _ _ Htr).
  inversion Hrun as [| | | | |w3 w ref evs1 cands evs2 gens m R1 R2 Hlen Hcheck].
  subst. simpl.
  inversion R1 as [|g w1 Hllm]; subst.
  exists w1. eexists. split; [exact Hllm|]. split; [reflexivity|].
  apply candidates_resolved_calls in R2 as (Hl2 & _).
  rewrite !llm_calls_app, Hl2, llm_calls_fetch_ok. simpl.
  rewrite app_nil_r, length_zip_with, !length_fmap. lia.
Qed.

(** C7. Every input sent to the model in a run, for the reference and
    for each evaluated prompt, starts with the prefix context and the
    delimiter when a prefix context was given and ends with the delimiter
    and the suffix context when a suffix context was given; the
    paraphraser is handed the bare prompt only. *)
Theorem context_isolation
    prompt ty n pre post ref_opt cands_opt st res st' :
  _evaluate_generations prompt ty n pre post ref_opt cands_opt st = (res, st') ->
  (forall llm_input out,
      LLMCall llm_input out ∈ new_events st st' ->
      (forall c, pre = Some c -> startswith llm_input (c +:+ default_delimiter)) /\
      (forall c, post = Some c -> endswith llm_input (default_delimiter +:+ c))) /\
  (forall perturber temperature out,
      ParaphraseCall perturber temperature out ∈ new_events st st' ->
      PerturbText.data perturber = [prompt]).
Proof.
  intros Hrun. apply evaluate_generations_run in Hrun as (evs & Htr & Hrun).
  rewrite (new_events_app _ _ _ Htr). split.
  - intros llm_input out Hev.
    destruct (eval_run_events _ _ _ _ _ _ _ _ _ _ _ _ Hrun Hev)
      as [[=]|[[=]|[(p & o & [= -> ->])|[[o [=]]|(r & gs & o & [=])]]]].
    split; intros c ->; [by apply assembled_startswith|by apply assembled_endswith].
  - intros perturber temperature out Hev.
    destruct (eval_run_events _ _ _ _ _ _ _ _ _ _ _ _ Hrun Hev)
      as [[=]|[[=]|[(p & o & [=])|[[o [= -> -> ->]]|(r & gs & o & [=])]]]].
    done.
Qed.

(** C5. In a call that hands in candidate prompts the paraphraser is
    never called; the model is called on the assembled handed-in prompts
    (after the original prompt in correctness mode) and on nothing else
    besides the reference fetch, in the given order; a result lists those
    prompts unchanged, with one generation per prompt in that order, and
    the checker is called once on them; the run fails only when a model
    call or the checker call raised; and any other
    [perturbations_per_sample] gives the same outcome and final state.
    In a call to [evaluate_prompt_correctness] no reference fetch is made
    or logged: every model call is the fetch for an evaluated prompt,
    every checker call is on the caller's reference, and the result
    carries that reference unchanged; the run fails only when a
    collaborator call raised or the paraphraser returned no row. *)
Theorem caller_overrides_respected
    prompt ty n pre post ref_opt ps st res st'
    prompt' ref n' pre' post' cands_opt st0 res' st0' :
  _evaluate_generations prompt ty n pre post ref_opt (Some ps) st = (res, st') ->
  evaluate_prompt_correctness prompt' ref n' pre' post' cands_opt st0
    = (res', st0') ->
  (paraphrase_calls (new_events st st') = [] /\
   (forall r, res = inr r ->
      LLMEvalResult.perturbed_prompts r =
        match ty with
        | correctness => prompt :: ps
        | robustness => ps
        end) /\
   (forall m,
      _evaluate_generations prompt ty m pre post ref_opt (Some ps) st = (res, st')) /\
   (llm_calls (new_events st st')).*1 `prefix_of`
     (match ref_opt with
      | None => [construct_llm_input prompt pre post default_delimiter]
      | Some _ => []
      end
      ++ ((fun p => construct_llm_input p pre post default_delimiter)
            <$> match ty with
                | correctness => prompt :: ps
                | robustness => ps
                end)) /\
   (forall r, res = inr r ->
      length (LLMEvalResult.perturbed_generations r)
        = length (LLMEvalResult.perturbed_prompts r) /\
      llm_calls (new_events st st') =
        reference_fetch ref_opt
          (construct_llm_input prompt pre post default_delimiter)
          (LLMEvalResult.reference_generation r)
        ++ zip ((fun p => construct_llm_input p pre post default_delimiter)
                  <$> match ty with
                      | correctness => prompt :: ps
                      | robustness => ps
                      end)
               (inr <$> LLMEvalResult.perturbed_generations r) /\
      exists m,
        check_calls (new_events st st')
        = [(LLMEvalResult.reference_generation r,
            LLMEvalResult.perturbed_generations r, inr m)] /\
        LLMEvalResult.result r = m.*1 /\
        LLMEvalResult.metric r = m.*2) /\
   (forall err, res = inl err ->
      exists e,
        err = Raised e /\
        ((exists llm_input, LLMCall llm_input (inl e) ∈ new_events st st') \/
         (exists r gens, CheckCall r gens (inl e) ∈ new_events st st'))))
  /\
  ((forall r, res' = inr r -> LLMEvalResult.reference_generation r = ref) /\
   (LogDebug (debug_msg prompt') ∉ new_events st0 st0') /\
   (llm_calls (new_events st0 st0')).*1 `prefix_of`
     (assembled pre' post'
        <$> (prompt' :: candidate_prompts cands_opt (new_events st0 st0'))) /\
   (forall r gens out,
      CheckCall r gens out ∈ new_events st0 st0' -> r = ref) /\
   (forall r, res' = inr r ->
      LLMEvalResult.perturbed_prompts r
        = prompt' :: candidate_prompts cands_opt (new_events st0 st0') /\
      length (LLMEvalResult.perturbed_generations r)
        = length (LLMEvalResult.perturbed_prompts r) /\
      llm_calls (new_events st0 st0') =
        zip ((fun p => construct_llm_input p pre' post' default_delimiter)
               <$> LLMEvalResult.perturbed_prompts r)
            (inr <$> LLMEvalResult.perturbed_generations r) /\
      exists m,
        check_calls (new_events st0 st0')
        = [(ref, LLMEvalResult.perturbed_generations r, inr m)] /\
        LLMEvalResult.result r = m.*1 /\
        LLMEvalResult.metric r = m.*2) /\
   (forall err, res' = inl err ->
      (err = IndexError /\
       exists perturber temperature ds,
         ParaphraseCall perturber temperature (inr ds) ∈ new_events st0 st0' /\
         Dataset.data ds = [])
      \/
      (exists e,
          err = Raised e /\
          ((exists llm_input, LLMCall llm_input (inl e) ∈ new_events st0 st0') \/
           (exists perturber temperature,
               ParaphraseCall perturber temperature (inl e)
                 ∈ new_events st0 st0') \/
           (exists r gens, CheckCall r gens (inl e) ∈ new_events st0 st0'))))).
Proof.
  intros Hrun Hrun'. split.
  - assert (Hn : forall m,
      _evaluate_generations prompt ty m pre post ref_opt (Some ps) st = (res, st'))
      by (intros m; by rewrite <- Hrun).
    pose proof (new_events_app st st') as Hnew.
    apply evaluate_generations_run in Hrun as (evs & Htr & Hrun).
    rewrite (Hnew _ Htr). clear Hnew Htr.
    assert (Hpara : paraphrase_calls evs = []).
    { by destruct (eval_run_paraphrase_calls _ _ _ _ _ _ _ _ _ _ _ Hrun)
        as [[? _]|[[=] _]]. }
    assert (Heps : evaluated_prompts ty prompt (candidate_prompts (Some ps) evs)
                   = match ty with
                     | correctness => prompt :: ps
                     | robustness => ps
                     end) by apply evaluated_prompts_mode.
    split; [done|]. split; [|split; [done|split; [|split]]].
    + intros r ->. apply eval_run_success in Hrun as (Hpp & _). by rewrite Hpp.
    + rewrite <- Heps. apply (eval_run_llm_inputs _ _ _ _ _ _ _ _ _ _ _ Hrun).
    + intros r ->. apply eval_run_success in Hrun as (Hpp & Hlen & Hcalls & Hm).
      rewrite Hpp, Heps in Hcalls. done.
    + intros err ->.
      destruct (eval_run_failure _ _ _ _ _ _ _ _ _ _ _ Hrun)
        as [(_ & pt & t & ds & Hev & _)|(e & -> & [Hm|[(pt & t & Hev)|Hc]])].
      * apply elem_of_paraphrase_calls in Hev. rewrite Hpara in Hev.
        by apply elem_of_nil in Hev.
      * exists e. split; [done|]. by left.
      * apply elem_of_paraphrase_calls in Hev. rewrite Hpara in Hev.
        by apply elem_of_nil in Hev.
      * exists e. split; [done|]. by right.
  - unfold evaluate_prompt_correctness in Hrun'.
    apply evaluate_generations_run in Hrun' as (evs & Htr & Hrun').
    rewrite (new_events_app _ _ _ Htr). split; [|split; [|split; [|split; [|split]]]].
    + intros r ->.
      inversion Hrun' as [| | | | |w3 w r0 evs1 cands evs2 gens m0 R1 R2 Hlen Hcheck].
      subst. by inversion R1.
    + by eapply eval_run_no_debug.
    + apply (eval_run_llm_inputs _ _ _ _ _ _ _ _ _ _ _ Hrun').
    + intros r gens out Hev. by eapply eval_run_check_reference.
    + intros r ->.
      pose proof (eval_run_success _ _ _ _ _ _ _ _ _ _ _ Hrun')
        as (Hpp & Hlen & Hcalls & m & Hc & Hres & Hmet).
      assert (Href : LLMEvalResult.reference_generation r = ref).
      { inversion Hrun' as [| | | | |w3 w r0 evs1 cands evs2 gens m0 R1 R2 Hl Hcheck].
        subst. by inversion R1. }
      rewrite Href in Hc. split; [by rewrite Hpp|]. split; [done|].
      split; [exact Hcalls|]. by exists m.
    + intros err ->. apply (eval_run_failure _ _ _ _ _ _ _ _ _ _ _ Hrun').
Qed.

(** C8. Under the provider's contract, a call to
    [generate_alternative_prompts] either returns a list, of exactly
    [perturbations_per_sample] elements when [return_original] is not
    set and of one more with the original prompt first when it is set,
    or raises what the provider itself raised. *)
Theorem generate_alternative_prompts_length
    prompt n temperature return_original st res st' :
  paraphraser_contract ->
  generate_alternative_prompts prompt n temperature return_original st
    = (res, st') ->
  match res with
  | inr alts =>
      match return_original with
      | Some true =>
          Z.of_nat (length alts) = (n + 1)%Z /\ alts !! 0%nat = Some prompt
      | _ => Z.of_nat (length alts) = n
      end
  | inl err =>
      exists e w',
        err = Raised e /\
        paraphrase (PerturbText.mk [prompt] None 1 n) temperature (world st)
          = (inl e, w')
  end.
Proof.
  intros Hcontract.
  unfold generate_alternative_prompts, mbind, M_bind, bind, call.
  destruct (paraphrase _ temperature (world st)) as [[e|ds] w'] eqn:Hp; simpl.
  { intros [= <- <-]. by exists e, w'. }
  apply Hcontract in Hp. simpl in Hp.
  apply Forall2_cons_inv_l in Hp as (inner & rest & (paras & -> & Hlen) & _ & Hds).
  rewrite Hds. simpl in Hlen.
  destruct return_original as [[|]|]; simpl; intros [= <- <-]; simpl;
    rewrite ?drop_0; try done.
  split; [lia|done].
Qed.

(** C10, as amended.  Whenever a run calls the paraphraser, it is with
    the one-element batch holding the original prompt and with
    temperature 0.0; and a run without caller-supplied candidates whose
    reference generation is obtained makes exactly one such call. *)
Theorem paraphraser_invocation
    prompt ty n pre post ref_opt cands_opt st res st' :
  _evaluate_generations prompt ty n pre post ref_opt cands_opt st = (res, st') ->
  (forall perturber temperature out,
      ParaphraseCall perturber temperature out ∈ new_events st st' ->
      perturber = PerturbText.mk [prompt] None 1 n /\
      temperature = Some float_zero) /\
  (cands_opt = None ->
   reference_obtained ref_opt prompt pre post st ->
   exists out,
     paraphrase_calls (new_events st st')
     = [(PerturbText.mk [prompt] None 1 n, Some float_zero, out)]).
Proof.
  intros Hrun. apply evaluate_generations_run in Hrun as (evs & Htr & Hrun).
  rewrite (new_events_app _ _ _ Htr). split.
  - intros perturber temperature out Hev.
    by destruct (eval_run_events _ _ _ _ _ _ _ _ _ _ _ _ Hrun Hev)
      as [[=]|[[=]|[(p & o & [=])|[[o [= -> -> ->]]|(r & gs & o & [=])]]]].
  - intros -> Href.
    destruct (eval_run_paraphrase_calls _ _ _ _ _ _ _ _ _ _ _ Hrun)
      as [[_ Hfail]|[_ Hone]]; [|done].
    destruct (Hfail eq_refl) as (-> & e & Hllm).
    destruct Href as (g & w1 & Hok). unfold assembled in Hllm. congruence.
Qed.

(** ** Further properties of the engine *)

Lemma string_length_app (s t : string) :
  String.length (s +:+ t) = (String.length s + String.length t)%nat.
Proof.
  induction s as [|c s IH]; [done|]. rewrite string_app_cons. simpl.
  by rewrite IH.
Qed.

Lemma string_length_zero (s : string) : String.length s = 0%nat -> s = "".
Proof. by destruct s. Qed.

Lemma string_app_nil_r (s : string) : s +:+ "" = s.
Proof.
  induction s as [|c s IH]; [done|]. by rewrite string_app_cons, IH.
Qed.

Lemma string_app_inj_r (s1 s2 t : string) : s1 +:+ t = s2 +:+ t -> s1 = s2.
Proof.
  revert s2. induction s1 as [|c s1 IH]; intros [|c2 s2] Heq; [done|..].
  - apply (f_equal String.length) in Heq.
    rewrite !string_length_app in Heq. simpl in Heq. lia.
  - apply (f_equal String.length) in Heq.
    rewrite !string_length_app in Heq. simpl in Heq. lia.
  - rewrite !string_app_cons in Heq. injection Heq as -> Heq.
    by rewrite (IH _ Heq).
Qed.

Lemma construct_llm_input_length_aux (p : string) (pre post : option string)
    (d : string) :
  String.length (construct_llm_input p pre post d) =
    (match pre with
     | Some c => String.length c + String.length d
     | None => 0
     end
     + String.length p
     + match post with
       | Some c => String.length d + String.length c
       | None => 0
       end)%nat.
Proof.
  unfold construct_llm_input.
  destruct pre, post; rewrite ?string_length_app; lia.
Qed.

(** X1. With the contexts and the delimiter fixed, prompt assembly is
    injective in the prompt: two prompts that assemble to the same model
    input are the same prompt. *)
Theorem construct_llm_input_inj (p1 p2 : string) (pre post : option string)
    (d : string) :
  construct_llm_input p1 pre post d = construct_llm_input p2 pre post d ->
  p1 = p2.
Proof.
  unfold construct_llm_input. intros Heq.
  destruct post as [q|]; [apply string_app_inj_r in Heq|];
    destruct pre as [c|]; try done; by apply (inj (String.append _)) in Heq.
Qed.

(** X2. The length of the assembled input is the length of the prompt,
    plus context and delimiter for each context that is present. *)
Theorem construct_llm_input_length (p : string) (pre post : option string)
    (d : string) :
  String.length (construct_llm_input p pre post d) =
    (match pre with
     | Some c => String.length c + String.length d
     | None => 0
     end
     + String.length p
     + match post with
       | Some c => String.length d + String.length c
       | None => 0
       end)%nat.
Proof.
  unfold construct_llm_input.
  destruct pre as [c|], post as [q|]; rewrite ?string_length_app; lia.
Qed.

(** X3. Assembly hands back the bare prompt exactly when every context
    that is present is the empty string and joined by an empty delimiter;
    with the default delimiter, exactly when no context is given: an
    empty-string context still adds the delimiter. *)
Theorem construct_llm_input_unchanged (p : string) (pre post : option string)
    (d : string) :
  (construct_llm_input p pre post d = p <->
   (forall c, pre = Some c -> c = "" /\ d = "") /\
   (forall c, post = Some c -> c = "" /\ d = "")) /\
  (construct_llm_input p pre post default_delimiter = p <->
   pre = None /\ post = None).
Proof.
  assert (Hgen : forall d',
    construct_llm_input p pre post d' = p <->
    (forall c, pre = Some c -> c = "" /\ d' = "") /\
    (forall c, post = Some c -> c = "" /\ d' = "")).
  { intros d'. split.
    - intros Heq. apply (f_equal String.length) in Heq.
      rewrite construct_llm_input_length_aux in Heq.
      destruct pre, post; simpl in Heq;
        (split; intros c [= <-]; split; apply string_length_zero; lia).
    - intros [Hpre Hpost]. unfold construct_llm_input.
      destruct pre as [c|], post as [q|]; try done.
      + destruct (Hpre c eq_refl) as [-> ->].
        destruct (Hpost q eq_refl) as [-> _]. exact (string_app_nil_r p).
      + by destruct (Hpre c eq_refl) as [-> ->].
      + destruct (Hpost q eq_refl) as [-> ->]. exact (string_app_nil_r p). }
  split; [apply Hgen|]. rewrite Hgen. split.
  - intros [Hpre Hpost]. split.
    + destruct pre as [c|]; [|done]. by destruct (Hpre c eq_refl) as [_ [=]].
    + destruct post as [c|]; [|done]. by destruct (Hpost c eq_refl) as [_ [=]].
  - by intros [-> ->].
Qed.

(** X4. A paraphraser call that raises ends the run: the run raises that
    same exception, the failed call is the last event of the run, the
    engine logs no error for it, no candidate generation is fetched (the
    only model call is the reference fetch, if there was one) and the
    checker is not called. *)
Theorem paraphraser_failure_is_fatal
    prompt ty n pre post ref_opt cands_opt st res st' perturber temperature e :
  _evaluate_generations prompt ty n pre post ref_opt cands_opt st = (res, st') ->
  ParaphraseCall perturber temperature (inl e) ∈ new_events st st' ->
  res = inl (Raised e) /\
  (exists earlier,
      new_events st st' = earlier ++ [ParaphraseCall perturber temperature (inl e)]) /\
  (forall msg, LogError msg ∉ new_events st st') /\
  length (llm_calls (new_events st st'))
    = match ref_opt with None => 1%nat | Some _ => 0%nat end /\
  check_calls (new_events st st') = [].
Proof.
  intros Hrun Hev. apply evaluate_generations_run in Hrun as (evs & Htr & Hrun).
  rewrite (new_events_app _ _ _ Htr) in *. clear Htr.
  destruct Hrun as
    [w e0 Hnone Hllm
    |w ref evs1 e0 R1 Hnone
    |w ref evs1 ds R1 Hnone Hds
    |w ref evs1 cands evs2 k p e0 gens R1 R2 Hk Hlen
    |w ref evs1 cands evs2 gens e0 R1 R2 Hlen
    |w3 w ref evs1 cands evs2 gens m R1 R2 Hlen Hcheck];
    in_events.
  split; [done|]. split; [by exists evs1|].
  pose proof (reference_resolved_calls _ _ _ _ _ _ _ R1) as (Hl1 & _ & Hc1).
  split; [|split].
  - intros msg H. in_events.
  - by rewrite llm_calls_app, Hl1, app_nil_r, length_reference_fetch.
  - by rewrite check_calls_app, Hc1.
Qed.

(** X5. When the paraphraser call of a run returns a dataset without any
    row, the engine's own [data[0]] fails: the run raises the
    [IndexError] of that lookup, the paraphraser call is the last event
    of the run, the engine logs no error, no candidate generation is
    fetched (the only model call is the reference fetch, if there was
    one) and the checker is not called. *)
Theorem empty_dataset_raises_index_error
    prompt ty n pre post ref_opt cands_opt st res st' perturber temperature ds :
  _evaluate_generations prompt ty n pre post ref_opt cands_opt st = (res, st') ->
  ParaphraseCall perturber temperature (inr ds) ∈ new_events st st' ->
  Dataset.data ds = [] ->
  res = inl IndexError /\
  (exists earlier,
      new_events st st' = earlier ++ [ParaphraseCall perturber temperature (inr ds)]) /\
  (forall msg, LogError msg ∉ new_events st st') /\
  length (llm_calls (new_events st st'))
    = match ref_opt with None => 1%nat | Some _ => 0%nat end /\
  check_calls (new_events st st') = [].
Proof.
  intros Hrun Hev Hempty.
  apply evaluate_generations_run in Hrun as (evs & Htr & Hrun).
  rewrite (new_events_app _ _ _ Htr) in *. clear Htr.
  destruct Hrun as
    [w e0 Hnone Hllm
    |w ref evs1 e0 R1 Hnone
    |w ref evs1 ds0 R1 Hnone Hds
    |w ref evs1 cands evs2 k p e0 gens R1 R2 Hk Hlen
    |w ref evs1 cands evs2 gens e0 R1 R2 Hlen
    |w3 w ref evs1 cands evs2 gens m R1 R2 Hlen Hcheck];
    in_events; try congruence.
  split; [done|]. split; [by eexists|].
  pose proof (reference_resolved_calls _ _ _ _ _ _ _ R1) as (Hl1 & _ & Hc1).
  split; [|split].
  - intros msg H. in_events.
  - by rewrite llm_calls_app, Hl1, app_nil_r, length_reference_fetch.
  - by rewrite check_calls_app, Hc1.
Qed.

(** X6. A checker call that raises ends the run: the run raises that
    same exception and returns no result, the failed call is the last
    event, the engine logs no error for it, and by then every evaluated
    prompt has been fetched, in order, each with a generation. *)
Theorem checker_failure_is_fatal
    prompt ty n pre post ref_opt cands_opt st res st' ref gens e :
  _evaluate_generations prompt ty n pre post ref_opt cands_opt st = (res, st') ->
  CheckCall ref gens (inl e) ∈ new_events st st' ->
  res = inl (Raised e) /\
  (exists earlier,
      new_events st st' = earlier ++ [CheckCall ref gens (inl e)]) /\
  (forall msg, LogError msg ∉ new_events st st') /\
  length gens
    = length (evaluated_prompts ty prompt
                (candidate_prompts cands_opt (new_events st st'))) /\
  llm_calls (new_events st st') =
    reference_fetch ref_opt (assembled pre post prompt) ref
    ++ zip (assembled pre post
              <$> evaluated_prompts ty prompt
                    (candidate_prompts cands_opt (new_events st st')))
           (inr <$> gens).
Proof.
  intros Hrun Hev. apply evaluate_generations_run in Hrun as (evs & Htr & Hrun).
  rewrite (new_events_app _ _ _ Htr) in *. clear Htr.
  destruct Hrun as
    [w e0 Hnone Hllm
    |w ref0 evs1 e0 R1 Hnone
    |w ref0 evs1 ds R1 Hnone Hds
    |w ref0 evs1 cands evs2 k p e0 gens0 R1 R2 Hk Hlen
    |w ref0 evs1 cands evs2 gens0 e0 R1 R2 Hlen
    |w3 w ref0 evs1 cands evs2 gens0 m R1 R2 Hlen Hcheck];
    in_events.
  pose proof (reference_resolved_calls _ _ _ _ _ _ _ R1) as (Hl1 & Hp1 & _).
  pose proof (candidates_resolved_calls _ _ _ _ _ R2) as (Hl2 & _ & _ & Hc).
  rewrite Hc; [|done|by rewrite paraphrase_calls_app, paraphrase_calls_fetch_ok].
  split; [done|]. split.
  { eexists. by rewrite !app_assoc. }
  split; [|split; [done|]].
  - intros msg H. in_events.
  - rewrite !llm_calls_app, Hl1, Hl2, llm_calls_fetch_ok. simpl.
    by rewrite app_nil_r.
Qed.


Lemma score_generations_type prompt ty1 ty2 pre post ref eps st :
  (score_generations prompt ty1 pre post ref eps st).2
    = (score_generations prompt ty2 pre post ref eps st).2 /\
  match (score_generations prompt ty1 pre post ref eps st).1,
        (score_generations prompt ty2 pre post ref eps st).1 with
  | inl e1, inl e2 => e1 = e2
  | inr r1, inr r2 =>
      r1 = LLMEvalResult.mk
             (LLMEvalResult.original_prompt r2) (LLMEvalResult.pre_context r2)
             (LLMEvalResult.post_context r2)
             (LLMEvalResult.reference_generation r2)
             (LLMEvalResult.perturbed_prompts r2)
             (LLMEvalResult.perturbed_generations r2)
             (LLMEvalResult.generation_kwargs r2)
             (LLMEvalResult.result r2) (LLMEvalResult.metric r2)
             (LLMEvalResult.expected_behavior_desc r2) ty1
  | _, _ => False
  end.
Proof.
  unfold score_generations, mbind, M_bind, bind, call, gets, mret, M_ret, ret.
  destruct (fetch_generations eps pre post [] st) as [[err|gens] st3]; [done|].
  simpl. by destruct (check ref gens (world st3)) as [[e|m] w'].
Qed.

(** X8. Correctness mode is the robustness pipeline run on the original
    prompt followed by the candidates: with candidates handed in, a
    correctness evaluation of [ps] and a robustness evaluation of
    [prompt :: ps] make the same calls, end in the same state, raise the
    same exception if any, and return results that differ in the
    evaluation type alone. *)
Theorem correctness_is_robustness_with_original
    prompt n n' pre post ref_opt ps st :
  (_evaluate_generations prompt correctness n pre post ref_opt (Some ps) st).2
  = (_evaluate_generations prompt robustness n' pre post ref_opt
       (Some (prompt :: ps)) st).2 /\
  match
    (_evaluate_generations prompt correctness n pre post ref_opt (Some ps) st).1,
    (_evaluate_generations prompt robustness n' pre post ref_opt
       (Some (prompt :: ps)) st).1
  with
  | inl e1, inl e2 => e1 = e2
  | inr r1, inr r2 =>
      r1 = LLMEvalResult.mk
             (LLMEvalResult.original_prompt r2) (LLMEvalResult.pre_context r2)
             (LLMEvalResult.post_context r2)
             (LLMEvalResult.reference_generation r2)
             (LLMEvalResult.perturbed_prompts r2)
             (LLMEvalResult.perturbed_generations r2)
             (LLMEvalResult.generation_kwargs r2)
             (LLMEvalResult.result r2) (LLMEvalResult.metric r2)
             (LLMEvalResult.expected_behavior_desc r2) correctness
  | _, _ => False
  end.
Proof.
  rewrite !evaluate_generations_stages.
  unfold mbind, M_bind, bind, mret, M_ret, ret.
  destruct (resolve_reference prompt pre post ref_opt st) as [[err|ref] st1];
    [done|].
  apply (score_generations_type prompt correctness robustness pre post ref
           (prompt :: ps) st1).
Qed.

Lemma generate_alternative_prompts_contract
    prompt n temperature return_original st res st' :
  paraphraser_contract ->
  generate_alternative_prompts prompt n temperature return_original st
    = (res, st') ->
  match res with
  | inl err => err <> IndexError
  | inr alts =>
      exists paras,
        Z.of_nat (length paras) = n /\
        alts = if truthy return_original then prompt :: paras else paras
  end.
Proof.
  intros Hcontract.
  unfold generate_alternative_prompts, mbind, M_bind, bind, call.
  destruct (paraphrase _ temperature (world st)) as [[e|ds] w'] eqn:Hp; simpl.
  { by intros [= <- <-]. }
  apply Hcontract in Hp. simpl in Hp.
  apply Forall2_cons_inv_l in Hp as (inner & rest & (paras & -> & Hlen) & _ & Hds).
  rewrite Hds. simpl in Hlen.
  destruct (truthy return_original); simpl; intros [= <- <-]; by exists paras.
Qed.

(** X9. When the paraphraser keeps its contract and no candidates are
    handed in, a successful robustness evaluation evaluates exactly
    [perturbations_per_sample] prompts and a successful correctness
    evaluation one more, each with one generation. *)
Theorem generated_candidates_count
    prompt ty n pre post ref_opt st r st' :
  paraphraser_contract ->
  _evaluate_generations prompt ty n pre post ref_opt None st = (inr r, st') ->
  Z.of_nat (length (LLMEvalResult.perturbed_prompts r)) =
    match ty with
    | robustness => n
    | correctness => (n + 1)%Z
    end /\
  length (LLMEvalResult.perturbed_generations r)
    = length (LLMEvalResult.perturbed_prompts r).
Proof.
  intros Hcontract. rewrite evaluate_generations_stages.
  unfold mbind, M_bind, bind.
  destruct (resolve_reference prompt pre post ref_opt st) as [[err|ref] st1];
    [done|].
  destruct (generate_alternative_prompts prompt n default_temperature
              default_return_original st1) as [r2 st2] eqn:H2.
  apply (generate_alternative_prompts_contract _ _ _ _ _ _ _ Hcontract) in H2.
  destruct r2 as [err|alts]; [done|].
  destruct H2 as (paras & Hlen & ->). simpl.
  intros Hrun. apply score_generations_run in Hrun
    as [(k & p & e & gens & _ & _ & [=] & _)
       |[(gens & e & _ & [=] & _)
        |(gens & m & w0 & Hgens & _ & [= ->] & _)]].
  simpl. split; [|done].
  rewrite evaluated_prompts_mode. destruct ty; simpl; lia.
Qed.

(** X10. What a run logs: the debug line for the reference fetch appears
    exactly when no reference was handed in, and an error line is always
    the one of [_get_generation] and appears only when a model call of
    the run raised; failures of the paraphraser or of the checker are not
    logged by the engine. *)
Theorem logging_of_a_run
    prompt ty n pre post ref_opt cands_opt st res st' :
  _evaluate_generations prompt ty n pre post ref_opt cands_opt st = (res, st') ->
  (forall msg,
      LogDebug msg ∈ new_events st st' <->
      ref_opt = None /\
      msg = "Fetching reference generation for the prompt: " +:+ prompt) /\
  (forall msg,
      LogError msg ∈ new_events st st' ->
      msg = "Unable to fetch generations from the model." /\
      exists llm_input e, LLMCall llm_input (inl e) ∈ new_events st st').
Proof.
  intros Hrun. apply evaluate_generations_run in Hrun as (evs & Htr & Hrun).
  rewrite (new_events_app _ _ _ Htr) in *. clear Htr.
  assert (Hdebug : forall w0 ref evs1 rest,
    reference_resolved prompt pre post w0 ref_opt ref evs1 ->
    ref_opt = None -> LogDebug (debug_msg prompt) ∈ evs1 ++ rest).
  { intros w0 ref evs1 rest R ->. inversion R. apply elem_of_app. left.
    apply list_elem_of_here. }
  assert (Hsupplied : forall w0 ref evs1 msg,
    reference_resolved prompt pre post w0 ref_opt ref evs1 ->
    LogDebug msg ∈ evs1 -> ref_opt = None /\ msg = debug_msg prompt).
  { intros w0 ref evs1 msg R H. destruct R; [by apply elem_of_nil in H|].
    unfold fetch_ok_events in H. simpl in H.
    rewrite !elem_of_cons, elem_of_nil in H.
    destruct H as [[= ->]|[[=]|[]]]. done. }
  destruct Hrun as
    [w e0 Hnone Hllm
    |w ref evs1 e0 R1 Hnone
    |w ref evs1 ds R1 Hnone Hds
    |w ref evs1 cands evs2 k p e0 gens R1 R2 Hk Hlen
    |w ref evs1 cands evs2 gens e0 R1 R2 Hlen
    |w3 w ref evs1 cands evs2 gens m R1 R2 Hlen Hcheck];
    (split; intros msg; [split|];
     [ (* a debug line is the reference fetch's *)
       intros H;
       try (apply elem_of_app in H as [H|H];
            [by apply (Hsupplied _ _ _ _ R1) in H|]);
       in_events; done
     | intros [Href ->]; first [by eapply Hdebug | apply list_elem_of_here]
     | (* an error line follows a failed model call *)
       intros H; in_events;
       (split; [done|]); eexists _, _;
       rewrite ?elem_of_app, ?elem_of_cons; eauto 10 ]).
Qed.

(** X11. A call to [generate_alternative_prompts] makes one paraphraser
    call, with the caller's temperature, batch size 1 and no NER pipeline,
    and nothing else: no model call, no checker call, no log line.
    [return_original] does not reach the paraphraser: it only decides
    whether the first entry of the returned row is kept, so the list
    without the original is the list with the original minus its head,
    and an absent [return_original] behaves like [False]. *)
Theorem generate_alternative_prompts_modes
    prompt n temperature return_original st res st' :
  generate_alternative_prompts prompt n temperature return_original st
    = (res, st') ->
  (exists out,
      new_events st st'
      = [ParaphraseCall (PerturbText.mk [prompt] None 1 n) temperature out]) /\
  exists with_original,
    generate_alternative_prompts prompt n temperature (Some true) st
      = (with_original, st') /\
    res = match with_original with
          | inl err => inl err
          | inr alts =>
              inr (match return_original with
                   | Some true => alts
                   | _ => drop 1 alts
                   end)
          end.
Proof.
  intros Hrun. split.
  - apply generate_alternative_prompts_run in Hrun as (out & Htr & _).
    exists out. by apply new_events_app.
  - revert Hrun.
    unfold generate_alternative_prompts, mbind, M_bind, bind, call.
    destruct (paraphrase _ temperature (world st)) as [[e|ds] w']; simpl.
    { intros [= <- <-]. by eexists. }
    destruct (Dataset.data ds) as [|first others];
      destruct return_original as [[|]|]; simpl; intros [= <- <-];
      by eexists.
Qed.

(** X12. The internal routine in correctness mode without a reference
    sends the assembled original prompt to the model twice: once for the
    reference and once more as the first evaluated prompt; the reference
    is the first answer and the first evaluated generation the second. *)
Theorem correctness_without_reference_fetches_twice
    prompt n pre post cands_opt st r st' :
  _evaluate_generations prompt correctness n pre post None cands_opt st
    = (inr r, st') ->
  exists g others later,
    LLMEvalResult.perturbed_generations r = g :: others /\
    llm_calls (new_events st st') =
      (construct_llm_input prompt pre post default_delimiter,
       inr (LLMEvalResult.reference_generation r))
      :: (construct_llm_input prompt pre post default_delimiter, inr g)
      :: later.
Proof.
  intros Hrun. apply evaluate_generations_run in Hrun as (evs & Htr & Hrun).
  rewrite (new_events_app _ _ _ Htr).
  inversion Hrun as [| | | | |w3 w ref evs1 cands evs2 gens m R1 R2 Hlen Hcheck].
  subst. cbn [LLMEvalResult.perturbed_generations LLMEvalResult.reference_generation].
  rewrite evaluated_prompts_mode in Hlen.
  destruct gens as [|g others]; [done|]. exists g, others.
  apply reference_resolved_calls in R1 as (Hl1 & _ & _).
  apply candidates_resolved_calls in R2 as (Hl2 & _).
  rewrite !llm_calls_app, Hl1, Hl2, llm_calls_fetch_ok, evaluated_prompts_mode.
  simpl. by eexists.
Qed.

(** X13. The engine never retries and never reorders: in every run,
    failed or not, the inputs of the model calls are, in order, an
    initial part of the assembled original prompt (when the reference is
    fetched) followed by the assembled evaluated prompts, so there is at
    most one model call per evaluated prompt besides the reference
    fetch. *)
Theorem model_calls_follow_prompts
    prompt ty n pre post ref_opt cands_opt st res st' :
  _evaluate_generations prompt ty n pre post ref_opt cands_opt st = (res, st') ->
  (llm_calls (new_events st st')).*1 `prefix_of`
    (match ref_opt with
     | None => [construct_llm_input prompt pre post default_delimiter]
     | Some _ => []
     end
     ++ ((fun p => construct_llm_input p pre post default_delimiter)
           <$> evaluated_prompts ty prompt
                 (candidate_prompts cands_opt (new_events st st')))) /\
  (length (llm_calls (new_events st st'))
   <= match ref_opt with None => 1 | Some _ => 0 end
      + length (evaluated_prompts ty prompt
                  (candidate_prompts cands_opt (new_events st st'))))%nat.
Proof.
  intros Hrun. apply evaluate_generations_run in Hrun as (evs & Htr & Hrun).
  rewrite (new_events_app _ _ _ Htr).
  pose proof (eval_run_llm_inputs _ _ _ _ _ _ _ _ _ _ _ Hrun) as Hpre.
  split; [exact Hpre|].
  apply prefix_length in Hpre.
  rewrite length_fmap, length_app, length_fmap in Hpre.
  by destruct ref_opt.
Qed.

(** X14. The metadata mapping has at most the three keys "Provider",
    "Temperature" and "Model Name"; each is present exactly when the
    model object has the attribute [_llm_type], [temperature] or
    [model_name], and then holds that attribute's value unconverted. *)
Theorem generation_details_entries w :
  _get_generation_details w !! "Provider" = llm_getattr "_llm_type" w /\
  _get_generation_details w !! "Temperature" = llm_getattr "temperature" w /\
  _get_generation_details w !! "Model Name" = llm_getattr "model_name" w /\
  dom (_get_generation_details w) ⊆ {["Provider"; "Temperature"; "Model Name"]} /\
  (size (_get_generation_details w) <= 3)%nat.
Proof.
  assert (Hdom : dom (_get_generation_details w)
                 ⊆ ({["Provider"; "Temperature"; "Model Name"]} : gset string)).
  { intros k [v Hk]%elem_of_dom. rewrite generation_details_lookup in Hk.
    repeat case_decide; simplify_eq; set_solver. }
  repeat split; try (rewrite generation_details_lookup; by repeat case_decide).
  - exact Hdom.
  - rewrite <- size_dom. apply subseteq_size in Hdom.
    etransitivity; [exact Hdom|]. by vm_compute.
Qed.

Lemma fetch_generations_answers (answer : string -> string) ps pre post acc st :
  (forall input w, (llm input w).1 = inr (answer input)) ->
  exists st',
    fetch_generations ps pre post acc st
    = (inr (acc ++ ((fun p => answer (assembled pre post p)) <$> ps)), st').
Proof.
  intros Hllm. revert acc st. induction ps as [|p ps IH]; intros acc st.
  - exists st. simpl. by rewrite app_nil_r.
  - simpl. unfold mbind, M_bind, bind. rewrite get_generation_run.
    pose proof (Hllm (assembled pre post p) (world st)) as Hp.
    destruct (llm (assembled pre post p) (world st)) as [[e|g] w']; [done|].
    simpl in Hp. injection Hp as ->.
    destruct (IH (acc ++ [answer (assembled pre post p)])
                 (mkState w' (trace st
                              ++ fetch_ok_events pre post [p]
                                   [answer (assembled pre post p)])))
      as [st' Hst'].
    exists st'. rewrite Hst'. by rewrite <- app_assoc.
Qed.

(** X15. For a model that never raises and whose answer depends on its
    input alone, the generations of a result are the model's answers to
    the assembled evaluated prompts, index by index, and a reference that
    was not handed in is its answer to the assembled original prompt. *)
Theorem deterministic_model_generations
    (answer : string -> string)
    prompt ty n pre post ref_opt cands_opt st r st' :
  (forall input w, (llm input w).1 = inr (answer input)) ->
  _evaluate_generations prompt ty n pre post ref_opt cands_opt st = (inr r, st') ->
  LLMEvalResult.reference_generation r =
    match ref_opt with
    | Some ref => ref
    | None => answer (construct_llm_input prompt pre post default_delimiter)
    end /\
  LLMEvalResult.perturbed_generations r =
    (fun p => answer (construct_llm_input p pre post default_delimiter))
      <$> LLMEvalResult.perturbed_prompts r.
Proof.
  intros Hllm. rewrite evaluate_generations_stages.
  unfold mbind, M_bind, bind.
  destruct (resolve_reference prompt pre post ref_opt st) as [[err|ref] st1] eqn:H1;
    [done|].
  assert (Href : ref = match ref_opt with
                       | Some ref => ref
                       | None => answer (assembled pre post prompt)
                       end).
  { apply resolve_reference_run in H1 as [(ref' & evs & [= <-] & _ & R)|(e & _ & [=] & _)].
    destruct R as [r0|g w1 Hg]; [done|].
    pose proof (Hllm (assembled pre post prompt) (world st)) as Hp.
    rewrite Hg in Hp. by injection Hp. }
  assert (Hscore : forall cands st2,
    score_generations prompt ty pre post ref
      (evaluated_prompts ty prompt cands) st2 = (inr r, st') ->
    LLMEvalResult.reference_generation r =
      match ref_opt with
      | Some ref => ref
      | None => answer (construct_llm_input prompt pre post default_delimiter)
      end /\
    LLMEvalResult.perturbed_generations r =
      (fun p => answer (construct_llm_input p pre post default_delimiter))
        <$> LLMEvalResult.perturbed_prompts r).
  { intros cands st2.
    unfold score_generations, mbind, M_bind, bind, call, gets, mret, M_ret, ret.
    destruct (fetch_generations_answers answer
                (evaluated_prompts ty prompt cands) pre post [] st2 Hllm)
      as [st3 ->].
    simpl. destruct (check ref _ (world st3)) as [[e|m] w']; [done|].
    by intros [= <- <-]. }
  destruct cands_opt as [ps|].
  - apply Hscore.
  - destruct (generate_alternative_prompts prompt n default_temperature
                default_return_original st1) as [[err|cands] st2]; [done|].
    apply Hscore.
Qed.

(** X16. An empty candidate list in robustness mode is evaluated as it
    is: when the checker keeps its contract, a successful run returns
    four empty lists, and its only model call is the reference fetch, if
    there was one. *)
Theorem empty_candidates_robustness
    prompt n pre post ref_opt st r st' :
  checker_contract ->
  _evaluate_generations prompt robustness n pre post ref_opt (Some []) st
    = (inr r, st') ->
  LLMEvalResult.perturbed_prompts r = [] /\
  LLMEvalResult.perturbed_generations r = [] /\
  LLMEvalResult.result r = [] /\
  LLMEvalResult.metric r = [] /\
  llm_calls (new_events st st') =
    reference_fetch ref_opt
      (construct_llm_input prompt pre post default_delimiter)
      (LLMEvalResult.reference_generation r) /\
  check_calls (new_events st st')
    = [(LLMEvalResult.reference_generation r, [], inr [])].
Proof.
  intros Hcontract Hrun.
  apply evaluate_generations_run in Hrun as (evs & Htr & Hrun).
  rewrite (new_events_app _ _ _ Htr).
  inversion Hrun as [| | | | |w3 w ref evs1 cands evs2 gens m R1 R2 Hlen Hcheck].
  subst. inversion R2; subst. simpl in *.
  destruct gens; [|done]. apply Hcontract in Hcheck. destruct m; [|done].
  apply reference_resolved_calls in R1 as (Hl1 & _ & Hc1).
  repeat split; try done.
  - by rewrite llm_calls_app, Hl1, app_nil_r.
  - by rewrite check_calls_app, Hc1.
Qed.

End Engine.


(** ** The engine on the stand-in collaborators *)

Lemma check_exact_contract : checker_contract Stub.check_exact.
Proof.
  intros ref gens w m w' [= <- _]. by rewrite length_map.
Qed.

Lemma paraphrase_repeat_contract :
  paraphraser_contract Stub.paraphrase_repeat.
Proof.
  intros perturber temperature w ds w'. unfold Stub.paraphrase_repeat.
  destruct (Z.ltb_spec (PerturbText.perturbations_per_sample perturber) 0);
    [done|].
  intros [= <- _]. simpl.
  induction (PerturbText.data perturber) as [|text texts IH];
    constructor; [|done].
  eexists. split; [done|]. rewrite length_replicate. lia.
Qed.

(** The spec's first scenario: a robustness evaluation with two
    paraphrases, every generation "4". *)
Example robustness_scenario :
  match
    fst (evaluate_prompt_robustness (Stub.llm_constant "4") Stub.hosted_attrs
           (Stub.paraphrase_table ["How much is 2 plus 2?"; "Sum of 2 and 2?"])
           Stub.check_exact Stub.descriptor
           "What is 2+2?" 2 None None None (mkState 0%nat []))
  with
  | inr r =>
      LLMEvalResult.perturbed_prompts r
        = ["How much is 2 plus 2?"; "Sum of 2 and 2?"] /\
      LLMEvalResult.reference_generation r = "4" /\
      LLMEvalResult.perturbed_generations r = ["4"; "4"] /\
      LLMEvalResult.result r = [true; true] /\
      LLMEvalResult.metric r = [1%Z; 1%Z]
  | inl _ => False
  end.
Proof. vm_compute. done. Qed.

(** The spec's third scenario: the model raises on the second candidate
    and the call raises the same exception. *)
Example failing_candidate_scenario :
  fst (evaluate_prompt_robustness (Stub.llm_failing_at 2 "4") Stub.hosted_attrs
         Stub.paraphrase_repeat Stub.check_exact Stub.descriptor
         "What is 2+2?" 5 None None
         (Some ["How much is 2 plus 2?"; "Sum of 2 and 2?"; "2+2=?"])
         (mkState 0%nat []))
  = inl (Raised "timeout").
Proof. vm_compute. reflexivity. Qed.

(** A model object without any of the three attributes gives the empty
    mapping. *)
Example no_attrs_empty_details :
  _get_generation_details Stub.no_attrs 0%nat = ∅.
Proof. reflexivity. Qed.

(** A correctness evaluation of one handed-in candidate against a model
    that always answers "Paris". *)
Lemma evaluated_prompts_by_mode_witness :
  exists r st',
    _evaluate_generations (Stub.llm_constant "Paris") Stub.hosted_attrs
      Stub.paraphrase_repeat Stub.check_exact Stub.descriptor
      "Capital of France?" correctness 5 None None (Some "Paris")
      (Some ["France's capital?"]) (mkState 0%nat []) = (inr r, st') /\
    LLMEvalResult.perturbed_prompts r
      = ["Capital of France?"; "France's capital?"].
Proof.
  eexists _, _. split; [vm_compute; reflexivity|].
  eapply (evaluated_prompts_by_mode (Stub.llm_constant "Paris") Stub.hosted_attrs
           Stub.paraphrase_repeat Stub.check_exact Stub.descriptor
           "Capital of France?" correctness 5 None None (Some "Paris")
           (Some ["France's capital?"]) (mkState 0%nat [])).
  vm_compute; reflexivity.
Defined.

(** A robustness evaluation with two paraphrases from the paraphraser
    against a model that always answers "4". *)
Lemma result_lists_parallel_witness :
  exists r st',
    _evaluate_generations (Stub.llm_constant "4") Stub.hosted_attrs
      (Stub.paraphrase_table ["How much is 2 plus 2?"; "Sum of 2 and 2?"])
      Stub.check_exact Stub.descriptor
      "What is 2+2?" robustness 2 None None None None (mkState 0%nat [])
      = (inr r, st') /\
    checker_contract Stub.check_exact /\
    LLMEvalResult.perturbed_prompts r
      = ["How much is 2 plus 2?"; "Sum of 2 and 2?"] /\
    length (LLMEvalResult.perturbed_prompts r)
      = length (LLMEvalResult.perturbed_generations r) /\
    length (LLMEvalResult.perturbed_generations r)
      = length (LLMEvalResult.result r) /\
    length (LLMEvalResult.result r) = length (LLMEvalResult.metric r) /\
    llm_calls (new_events (mkState 0%nat []) st') =
      [("What is 2+2?", inr "4"); ("How much is 2 plus 2?", inr "4");
       ("Sum of 2 and 2?", inr "4")] /\
    (forall i p,
        LLMEvalResult.perturbed_prompts r !! i = Some p ->
        exists g,
          LLMEvalResult.perturbed_generations r !! i = Some g /\
          llm_calls (new_events (mkState 0%nat []) st') !! (1 + i)%nat
          = Some (construct_llm_input p None None default_delimiter, inr g)).
Proof.
  eexists _, _. split; [vm_compute; reflexivity|].
  split; [exact check_exact_contract|]. split; [reflexivity|].
  eapply (result_lists_parallel (Stub.llm_constant "4") Stub.hosted_attrs
            (Stub.paraphrase_table ["How much is 2 plus 2?"; "Sum of 2 and 2?"])
            Stub.check_exact Stub.descriptor
            "What is 2+2?" robustness 2 None None None None (mkState 0%nat [])).
  - exact check_exact_contract.
  - vm_compute; reflexivity.
Defined.

(** The model raises on the second candidate. *)
Lemma generation_failure_is_fatal_witness :
  exists res st',
    _evaluate_generations (Stub.llm_failing_at 2 "4") Stub.hosted_attrs
      Stub.paraphrase_repeat Stub.check_exact Stub.descriptor
      "What is 2+2?" robustness 5 None None None
      (Some ["How much is 2 plus 2?"; "Sum of 2 and 2?"; "2+2=?"])
      (mkState 0%nat []) = (res, st') /\
    LLMCall "Sum of 2 and 2?" (inl "timeout") ∈ new_events (mkState 0%nat []) st' /\
    res = inl (Raised "timeout") /\
    (exists earlier,
        new_events (mkState 0%nat []) st'
        = earlier ++ [LLMCall "Sum of 2 and 2?" (inl "timeout");
                      LogError error_msg]) /\
    check_calls (new_events (mkState 0%nat []) st') = [].
Proof.
  eexists _, _. split; [vm_compute; reflexivity|].
  assert (Hev : @LLMCall string Z unit "Sum of 2 and 2?" (inl "timeout")
                ∈ [LogDebug (debug_msg "What is 2+2?");
                   LLMCall "What is 2+2?" (inr "4");
                   LLMCall "How much is 2 plus 2?" (inr "4");
                   LLMCall "Sum of 2 and 2?" (inl "timeout");
                   LogError error_msg]).
  { do 3 apply list_elem_of_further. apply list_elem_of_here. }
  split; [exact Hev|].
  eapply (generation_failure_is_fatal (Stub.llm_failing_at 2 "4") Stub.hosted_attrs
            Stub.paraphrase_repeat Stub.check_exact Stub.descriptor
            "What is 2+2?" robustness 5 None None None
            (Some ["How much is 2 plus 2?"; "Sum of 2 and 2?"; "2+2=?"])
            (mkState 0%nat [])).
  - vm_compute; reflexivity.
  - exact Hev.
Defined.

(** A robustness evaluation: the reference is the model's answer to the
    assembled original prompt. *)
Lemma robustness_reference_is_fetched_witness :
  exists r st',
    evaluate_prompt_robustness (Stub.llm_constant "4") Stub.hosted_attrs
      (Stub.paraphrase_table ["How much is 2 plus 2?"; "Sum of 2 and 2?"])
      Stub.check_exact Stub.descriptor
      "What is 2+2?" 2 (Some "Context:") (Some "End.") None (mkState 0%nat [])
      = (inr r, st') /\
    LLMEvalResult.reference_generation r = "4" /\
    exists w1 later,
      Stub.llm_constant "4" "Context: What is 2+2? End." 0%nat
        = (inr (LLMEvalResult.reference_generation r), w1) /\
      new_events (mkState 0%nat []) st' =
        LogDebug (debug_msg "What is 2+2?")
        :: LLMCall "Context: What is 2+2? End."
                   (inr (LLMEvalResult.reference_generation r))
        :: later /\
      length (llm_calls later) = length (LLMEvalResult.perturbed_prompts r).
Proof.
  eexists _, _. split; [vm_compute; reflexivity|]. split; [reflexivity|].
  eapply (robustness_reference_is_fetched (Stub.llm_constant "4") Stub.hosted_attrs
            (Stub.paraphrase_table ["How much is 2 plus 2?"; "Sum of 2 and 2?"])
            Stub.check_exact Stub.descriptor
            "What is 2+2?" 2 (Some "Context:") (Some "End.") None
            (mkState 0%nat [])).
  vm_compute; reflexivity.
Defined.

(** Candidates handed in to a robustness evaluation, and a correctness
    evaluation that lets the paraphraser produce them; both succeed. *)
Lemma caller_overrides_respected_witness :
  exists r st' r' st0',
    _evaluate_generations (Stub.llm_constant "Paris") Stub.hosted_attrs
      (Stub.paraphrase_table ["France's capital?"])
      Stub.check_exact Stub.descriptor
      "Capital of France?" robustness 5 None None None
      (Some ["France's capital?"; "Which city is the capital of France?"])
      (mkState 0%nat []) = (inr r, st') /\
    evaluate_prompt_correctness (Stub.llm_constant "Paris") Stub.hosted_attrs
      (Stub.paraphrase_table ["France's capital?"])
      Stub.check_exact Stub.descriptor
      "Capital of France?" "Paris" 1 None None None (mkState 0%nat [])
      = (inr r', st0') /\
    LLMEvalResult.perturbed_prompts r
      = ["France's capital?"; "Which city is the capital of France?"] /\
    LLMEvalResult.perturbed_generations r = ["Paris"; "Paris"] /\
    LLMEvalResult.reference_generation r' = "Paris" /\
    LLMEvalResult.perturbed_prompts r'
      = ["Capital of France?"; "France's capital?"] /\
    (paraphrase_calls (new_events (mkState 0%nat []) st') = [] /\
     (forall r0, @inr (PyExn string) _ r = inr r0 ->
        LLMEvalResult.perturbed_prompts r0
        = ["France's capital?"; "Which city is the capital of France?"]) /\
     (forall m,
        _evaluate_generations (Stub.llm_constant "Paris") Stub.hosted_attrs
          (Stub.paraphrase_table ["France's capital?"])
          Stub.check_exact Stub.descriptor
          "Capital of France?" robustness m None None None
          (Some ["France's capital?"; "Which city is the capital of France?"])
          (mkState 0%nat []) = (inr r, st')) /\
     (llm_calls (new_events (mkState 0%nat []) st')).*1 `prefix_of`
       ([construct_llm_input "Capital of France?" None None default_delimiter]
        ++ ((fun p => construct_llm_input p None None default_delimiter)
              <$> ["France's capital?"; "Which city is the capital of France?"])) /\
     (forall r0, @inr (PyExn string) _ r = inr r0 ->
        length (LLMEvalResult.perturbed_generations r0)
          = length (LLMEvalResult.perturbed_prompts r0) /\
        llm_calls (new_events (mkState 0%nat []) st') =
          reference_fetch None
            (construct_llm_input "Capital of France?" None None default_delimiter)
            (LLMEvalResult.reference_generation r0)
          ++ zip ((fun p => construct_llm_input p None None default_delimiter)
                    <$> ["France's capital?";
                         "Which city is the capital of France?"])
                 (inr <$> LLMEvalResult.perturbed_generations r0) /\
        exists m,
          check_calls (new_events (mkState 0%nat []) st')
          = [(LLMEvalResult.reference_generation r0,
              LLMEvalResult.perturbed_generations r0, inr m)] /\
          LLMEvalResult.result r0 = m.*1 /\
          LLMEvalResult.metric r0 = m.*2) /\
     (forall err, @inr (PyExn string) _ r = inl err ->
        exists e,
          err = Raised e /\
          ((exists llm_input,
               LLMCall llm_input (inl e) ∈ new_events (mkState 0%nat []) st') \/
           (exists r0 gens,
               CheckCall r0 gens (inl e) ∈ new_events (mkState 0%nat []) st'))))
    /\
    ((forall r0, @inr (PyExn string) _ r' = inr r0 -> LLMEvalResult.reference_generation r0 = "Paris") /\
     (LogDebug (debug_msg "Capital of France?") ∉ new_events (mkState 0%nat []) st0') /\
     (llm_calls (new_events (mkState 0%nat []) st0')).*1 `prefix_of`
       (assembled None None
          <$> ("Capital of France?"
               :: candidate_prompts None (new_events (mkState 0%nat []) st0'))) /\
     (forall r0 gens out,
        CheckCall r0 gens out ∈ new_events (mkState 0%nat []) st0' -> r0 = "Paris") /\
     (forall r0, @inr (PyExn string) _ r' = inr r0 ->
        LLMEvalResult.perturbed_prompts r0
          = "Capital of France?"
            :: candidate_prompts None (new_events (mkState 0%nat []) st0') /\
        length (LLMEvalResult.perturbed_generations r0)
          = length (LLMEvalResult.perturbed_prompts r0) /\
        llm_calls (new_events (mkState 0%nat []) st0') =
          zip ((fun p => construct_llm_input p None None default_delimiter)
                 <$> LLMEvalResult.perturbed_prompts r0)
              (inr <$> LLMEvalResult.perturbed_generations r0) /\
        exists m,
          check_calls (new_events (mkState 0%nat []) st0')
          = [("Paris", LLMEvalResult.perturbed_generations r0, inr m)] /\
          LLMEvalResult.result r0 = m.*1 /\
          LLMEvalResult.metric r0 = m.*2) /\
     (forall err, @inr (PyExn string) _ r' = inl err ->
        (err = IndexError /\
         exists perturber temperature ds,
           ParaphraseCall perturber temperature (inr ds)
             ∈ new_events (mkState 0%nat []) st0' /\
           Dataset.data ds = [])
        \/
        (exists e,
            err = Raised e /\
            ((exists llm_input,
                 LLMCall llm_input (inl e) ∈ new_events (mkState 0%nat []) st0') \/
             (exists perturber temperature,
                 ParaphraseCall perturber temperature (inl e)
                   ∈ new_events (mkState 0%nat []) st0') \/
             (exists r0 gens,
                 CheckCall r0 gens (inl e) ∈ new_events (mkState 0%nat []) st0'))))).
Proof.
  eexists _, _, _, _.
  split; [vm_compute; reflexivity|]. split; [vm_compute; reflexivity|].
  do 4 (split; [reflexivity|]).
  eapply (caller_overrides_respected (Stub.llm_constant "Paris") Stub.hosted_attrs
            (Stub.paraphrase_table ["France's capital?"])
            Stub.check_exact Stub.descriptor
            "Capital of France?" robustness 5 None None None
            ["France's capital?"; "Which city is the capital of France?"]
            (mkState 0%nat []) _ _
            "Capital of France?" "Paris" 1 None None None (mkState 0%nat [])).
  - vm_compute; reflexivity.
  - vm_compute; reflexivity.
Defined.

(** Both contexts given: every model input starts with "Context: " and
    ends with " End.". *)
Lemma context_isolation_witness :
  exists res st',
    _evaluate_generations (Stub.llm_constant "4") Stub.hosted_attrs
      (Stub.paraphrase_table ["How much is 2 plus 2?"; "Sum of 2 and 2?"])
      Stub.check_exact Stub.descriptor
      "What is 2+2?" robustness 2 (Some "Context:") (Some "End.") None None
      (mkState 0%nat []) = (res, st') /\
    LLMCall "Context: Sum of 2 and 2? End." (inr "4")
      ∈ new_events (mkState 0%nat []) st' /\
    (forall llm_input out,
        LLMCall llm_input out ∈ new_events (mkState 0%nat []) st' ->
        (forall c, Some "Context:" = Some c ->
                   startswith llm_input (c +:+ default_delimiter)) /\
        (forall c, Some "End." = Some c ->
                   endswith llm_input (default_delimiter +:+ c))) /\
    (forall perturber temperature out,
        ParaphraseCall perturber temperature out ∈ new_events (mkState 0%nat []) st' ->
        PerturbText.data perturber = ["What is 2+2?"]).
Proof.
  eexists _, _. split; [vm_compute; reflexivity|]. split.
  { do 4 apply list_elem_of_further. apply list_elem_of_here. }
  eapply (context_isolation (Stub.llm_constant "4") Stub.hosted_attrs
            (Stub.paraphrase_table ["How much is 2 plus 2?"; "Sum of 2 and 2?"])
            Stub.check_exact Stub.descriptor
            "What is 2+2?" robustness 2 (Some "Context:") (Some "End.") None None
            (mkState 0%nat [])).
  vm_compute; reflexivity.
Defined.

(** Two paraphrases asked for, with and without the original. *)
Lemma generate_alternative_prompts_length_witness :
  exists res st',
    generate_alternative_prompts Stub.paraphrase_repeat
      "What is 2+2?" 2 (Some float_zero) (Some true)
      (mkState (E:=string) (Score:=Z) 0%nat [])
      = (res, st') /\
    paraphraser_contract Stub.paraphrase_repeat /\
    res = inr ["What is 2+2?"; "In other words: What is 2+2?";
               "In other words: What is 2+2?"] /\
    match res with
    | inr alts => Z.of_nat (length alts) = (2 + 1)%Z /\ alts !! 0%nat = Some "What is 2+2?"
    | inl err =>
        exists e w',
          err = Raised e /\
          Stub.paraphrase_repeat (PerturbText.mk ["What is 2+2?"] None 1 2)
            (Some float_zero) 0%nat = (inl e, w')
    end.
Proof.
  eexists _, _. split; [vm_compute; reflexivity|].
  split; [exact paraphrase_repeat_contract|]. split; [reflexivity|].
  refine (generate_alternative_prompts_length (Score:=Z) Stub.paraphrase_repeat
            "What is 2+2?" 2 (Some float_zero) (Some true) (mkState 0%nat [])
            (inr ["What is 2+2?"; "In other words: What is 2+2?";
                  "In other words: What is 2+2?"]) _
            paraphrase_repeat_contract _).
  vm_compute; reflexivity.
Defined.

(** Candidates left to the paraphraser: it is called once, on the bare
    prompt, at temperature 0.0. *)
Lemma paraphraser_invocation_witness :
  exists res st',
    _evaluate_generations (Stub.llm_constant "4") Stub.hosted_attrs
      Stub.paraphrase_repeat Stub.check_exact Stub.descriptor
      "What is 2+2?" robustness 2 None None None None (mkState 0%nat [])
      = (res, st') /\
    (forall perturber temperature out,
        ParaphraseCall perturber temperature out ∈ new_events (mkState 0%nat []) st' ->
        perturber = PerturbText.mk ["What is 2+2?"] None 1 2 /\
        temperature = Some float_zero) /\
    (@None (list string) = None ->
     reference_obtained (Stub.llm_constant "4") None "What is 2+2?" None None
       (mkState (E:=string) (Score:=Z) (NerPipeline:=unit) 0%nat []) ->
     exists out,
       paraphrase_calls (new_events (mkState 0%nat []) st')
       = [(PerturbText.mk ["What is 2+2?"] None 1 2, Some float_zero, out)]).
Proof.
  eexists _, _. split; [vm_compute; reflexivity|].
  eapply (paraphraser_invocation (Stub.llm_constant "4") Stub.hosted_attrs
            Stub.paraphrase_repeat Stub.check_exact Stub.descriptor
            "What is 2+2?" robustness 2 None None None None (mkState 0%nat [])).
  vm_compute; reflexivity.
Defined.

(** C10 as stated fails: when the reference fetch raises, the run ends
    before the paraphraser is reached, although no candidates were handed
    in. *)
Lemma paraphraser_not_reached :
  ~ (forall (llm : string -> nat -> (string + string) * nat)
            prompt ty n pre post ref_opt st res st',
        _evaluate_generations llm Stub.hosted_attrs Stub.paraphrase_repeat
          Stub.check_exact Stub.descriptor
          prompt ty n pre post ref_opt None st = (res, st') ->
        exists out,
          (PerturbText.mk [prompt] None 1 n, Some float_zero, out)
            ∈ paraphrase_calls (new_events st st')).
Proof.
  intros Hclaim.
  edestruct (Hclaim (Stub.llm_failing_at 0 "4") "What is 2+2?" robustness 2%Z
               None None None (mkState 0%nat [])) as [out Hout];
    [vm_compute; reflexivity|].
  vm_compute in Hout. inversion Hout.
Qed.

(** C9, at a model object whose sampling temperature is the float 0.5:
    the metadata mapping holds that float itself under "Temperature", so
    not every value of the mapping is a string. *)
Theorem generation_details_temperature_not_str :
  _get_generation_details Stub.hosted_attrs 0%nat !! "Temperature"
    = Some (PyFloat float_half) /\
  is_str (PyFloat float_half) = false.
Proof. split; [vm_compute|]; reflexivity. Qed.

(** ** The further properties on the stand-in collaborators *)

Lemma construct_llm_input_inj_witness :
  construct_llm_input "What is 2+2?" (Some "Context:") (Some "End.") " "
    = construct_llm_input "What is 2+2?" (Some "Context:") (Some "End.") " " /\
  "What is 2+2?" = "What is 2+2?".
Proof.
  split; [reflexivity|].
  apply (construct_llm_input_inj "What is 2+2?" "What is 2+2?"
           (Some "Context:") (Some "End.") " ").
  reflexivity.
Defined.

(** The paraphraser is down. *)
Lemma paraphraser_failure_is_fatal_witness :
  exists res st',
    _evaluate_generations (Stub.llm_constant "4") Stub.hosted_attrs
      Stub.paraphrase_unavailable Stub.check_exact Stub.descriptor
      "What is 2+2?" robustness 2 None None None None (mkState 0%nat [])
      = (res, st') /\
    ParaphraseCall (PerturbText.mk ["What is 2+2?"] None 1 2) (Some float_zero)
                   (inl "paraphraser unavailable")
      ∈ new_events (mkState 0%nat []) st' /\
    res = inl (Raised "paraphraser unavailable") /\
    (exists earlier,
        new_events (mkState 0%nat []) st'
        = earlier ++ [ParaphraseCall (PerturbText.mk ["What is 2+2?"] None 1 2)
                        (Some float_zero) (inl "paraphraser unavailable")]) /\
    (forall msg, LogError msg ∉ new_events (mkState 0%nat []) st') /\
    length (llm_calls (new_events (mkState 0%nat []) st')) = 1%nat /\
    check_calls (new_events (mkState 0%nat []) st') = [].
Proof.
  eexists _, _. split; [vm_compute; reflexivity|].
  assert (Hev : @ParaphraseCall string Z unit
                  (PerturbText.mk ["What is 2+2?"] None 1 2) (Some float_zero)
                  (inl "paraphraser unavailable")
                ∈ [LogDebug (debug_msg "What is 2+2?");
                   LLMCall "What is 2+2?" (inr "4");
                   ParaphraseCall (PerturbText.mk ["What is 2+2?"] None 1 2)
                     (Some float_zero) (inl "paraphraser unavailable")]).
  { do 2 apply list_elem_of_further. apply list_elem_of_here. }
  split; [exact Hev|].
  eapply (paraphraser_failure_is_fatal (Stub.llm_constant "4") Stub.hosted_attrs
            Stub.paraphrase_unavailable Stub.check_exact Stub.descriptor
            "What is 2+2?" robustness 2 None None None None (mkState 0%nat [])).
  - vm_compute; reflexivity.
  - exact Hev.
Defined.

(** The paraphraser returns a dataset without rows. *)
Lemma empty_dataset_raises_index_error_witness :
  exists res st',
    _evaluate_generations (Stub.llm_constant "4") Stub.hosted_attrs
      Stub.paraphrase_empty Stub.check_exact Stub.descriptor
      "What is 2+2?" robustness 2 None None None None (mkState 0%nat [])
      = (res, st') /\
    ParaphraseCall (PerturbText.mk ["What is 2+2?"] None 1 2) (Some float_zero)
                   (inr (Dataset.mk []))
      ∈ new_events (mkState 0%nat []) st' /\
    Dataset.data (Dataset.mk []) = [] /\
    res = inl IndexError /\
    (exists earlier,
        new_events (mkState 0%nat []) st'
        = earlier ++ [ParaphraseCall (PerturbText.mk ["What is 2+2?"] None 1 2)
                        (Some float_zero) (inr (Dataset.mk []))]) /\
    (forall msg, LogError msg ∉ new_events (mkState 0%nat []) st') /\
    length (llm_calls (new_events (mkState 0%nat []) st')) = 1%nat /\
    check_calls (new_events (mkState 0%nat []) st') = [].
Proof.
  eexists _, _. split; [vm_compute; reflexivity|].
  assert (Hev : @ParaphraseCall string Z unit
                  (PerturbText.mk ["What is 2+2?"] None 1 2) (Some float_zero)
                  (inr (Dataset.mk []))
                ∈ [LogDebug (debug_msg "What is 2+2?");
                   LLMCall "What is 2+2?" (inr "4");
                   ParaphraseCall (PerturbText.mk ["What is 2+2?"] None 1 2)
                     (Some float_zero) (inr (Dataset.mk []))]).
  { do 2 apply list_elem_of_further. apply list_elem_of_here. }
  split; [exact Hev|]. split; [reflexivity|].
  eapply (empty_dataset_raises_index_error (Stub.llm_constant "4")
            Stub.hosted_attrs
            Stub.paraphrase_empty Stub.check_exact Stub.descriptor
            "What is 2+2?" robustness 2 None None None None (mkState 0%nat [])).
  - vm_compute; reflexivity.
  - exact Hev.
  - reflexivity.
Defined.

(** The checker is down. *)
Lemma checker_failure_is_fatal_witness :
  exists res st',
    _evaluate_generations (Stub.llm_constant "4") Stub.hosted_attrs
      Stub.paraphrase_repeat Stub.check_raising Stub.descriptor
      "What is 2+2?" robustness 5 None None None
      (Some ["How much is 2 plus 2?"; "Sum of 2 and 2?"])
      (mkState 0%nat []) = (res, st') /\
    CheckCall "4" ["4"; "4"] (inl "metric unavailable")
      ∈ new_events (mkState 0%nat []) st' /\
    res = inl (Raised "metric unavailable") /\
    (exists earlier,
        new_events (mkState 0%nat []) st'
        = earlier ++ [CheckCall "4" ["4"; "4"] (inl "metric unavailable")]) /\
    (forall msg, LogError msg ∉ new_events (mkState 0%nat []) st') /\
    length ["4"; "4"]
      = length (evaluated_prompts robustness "What is 2+2?"
                  (candidate_prompts
                     (Some ["How much is 2 plus 2?"; "Sum of 2 and 2?"])
                     (new_events (mkState 0%nat []) st'))) /\
    llm_calls (new_events (mkState 0%nat []) st') =
      reference_fetch None (assembled None None "What is 2+2?") "4"
      ++ zip (assembled None None
                <$> evaluated_prompts robustness "What is 2+2?"
                      (candidate_prompts
                         (Some ["How much is 2 plus 2?"; "Sum of 2 and 2?"])
                         (new_events (mkState 0%nat []) st')))
             (inr <$> ["4"; "4"]).
Proof.
  eexists _, _. split; [vm_compute; reflexivity|].
  assert (Hev : @CheckCall string Z unit "4" ["4"; "4"] (inl "metric unavailable")
                ∈ [LogDebug (debug_msg "What is 2+2?");
                   LLMCall "What is 2+2?" (inr "4");
                   LLMCall "How much is 2 plus 2?" (inr "4");
                   LLMCall "Sum of 2 and 2?" (inr "4");
                   CheckCall "4" ["4"; "4"] (inl "metric unavailable")]).
  { do 4 apply list_elem_of_further. apply list_elem_of_here. }
  split; [exact Hev|].
  eapply (checker_failure_is_fatal (Stub.llm_constant "4") Stub.hosted_attrs
            Stub.paraphrase_repeat Stub.check_raising Stub.descriptor
            "What is 2+2?" robustness 5 None None None
            (Some ["How much is 2 plus 2?"; "Sum of 2 and 2?"])
            (mkState 0%nat [])).
  - vm_compute; reflexivity.
  - exact Hev.
Defined.


(** Two paraphrases asked of a paraphraser that keeps its contract. *)
Lemma generated_candidates_count_witness :
  exists r st',
    _evaluate_generations (Stub.llm_constant "4") Stub.hosted_attrs
      Stub.paraphrase_repeat Stub.check_exact Stub.descriptor
      "What is 2+2?" correctness 2 None None (Some "4") None (mkState 0%nat [])
      = (inr r, st') /\
    paraphraser_contract Stub.paraphrase_repeat /\
    Z.of_nat (length (LLMEvalResult.perturbed_prompts r)) = (2 + 1)%Z /\
    length (LLMEvalResult.perturbed_generations r)
      = length (LLMEvalResult.perturbed_prompts r).
Proof.
  eexists _, _. split; [vm_compute; reflexivity|].
  split; [exact paraphrase_repeat_contract|].
  eapply (generated_candidates_count (Stub.llm_constant "4") Stub.hosted_attrs
            Stub.paraphrase_repeat Stub.check_exact Stub.descriptor
            "What is 2+2?" correctness 2 None None (Some "4") (mkState 0%nat [])).
  - exact paraphrase_repeat_contract.
  - vm_compute; reflexivity.
Defined.

(** The model raises on the reference fetch: both lines are logged. *)
Lemma logging_of_a_run_witness :
  exists res st',
    _evaluate_generations (Stub.llm_failing_at 0 "4") Stub.hosted_attrs
      Stub.paraphrase_repeat Stub.check_exact Stub.descriptor
      "What is 2+2?" robustness 2 None None None None (mkState 0%nat [])
      = (res, st') /\
    LogDebug "Fetching reference generation for the prompt: What is 2+2?"
      ∈ new_events (mkState 0%nat []) st' /\
    LogError "Unable to fetch generations from the model."
      ∈ new_events (mkState 0%nat []) st' /\
    (forall msg,
        LogDebug msg ∈ new_events (mkState 0%nat []) st' <->
        @None string = None /\
        msg = "Fetching reference generation for the prompt: " +:+ "What is 2+2?") /\
    (forall msg,
        LogError msg ∈ new_events (mkState 0%nat []) st' ->
        msg = "Unable to fetch generations from the model." /\
        exists llm_input e,
          LLMCall llm_input (inl e) ∈ new_events (mkState 0%nat []) st').
Proof.
  eexists _, _. split; [vm_compute; reflexivity|].
  split; [apply list_elem_of_here|]. split.
  { do 2 apply list_elem_of_further. apply list_elem_of_here. }
  eapply (logging_of_a_run (Stub.llm_failing_at 0 "4") Stub.hosted_attrs
            Stub.paraphrase_repeat Stub.check_exact Stub.descriptor
            "What is 2+2?" robustness 2 None None None None (mkState 0%nat [])).
  vm_compute; reflexivity.
Defined.

(** Two paraphrases, without the original. *)
Lemma generate_alternative_prompts_modes_witness :
  exists res st',
    generate_alternative_prompts Stub.paraphrase_repeat
      "What is 2+2?" 2 (Some float_half) None
      (mkState (E:=string) (Score:=Z) 0%nat [])
      = (res, st') /\
    res = inr ["In other words: What is 2+2?"; "In other words: What is 2+2?"] /\
    (exists out,
        new_events (mkState 0%nat []) st'
        = [ParaphraseCall (PerturbText.mk ["What is 2+2?"] None 1 2)
             (Some float_half) out]) /\
    exists with_original,
      generate_alternative_prompts Stub.paraphrase_repeat
        "What is 2+2?" 2 (Some float_half) (Some true) (mkState 0%nat [])
        = (with_original, st') /\
      res = match with_original with
            | inl err => inl err
            | inr alts => inr (drop 1 alts)
            end.
Proof.
  eexists _, _. split; [vm_compute; reflexivity|]. split; [reflexivity|].
  eapply (generate_alternative_prompts_modes (Score:=Z) Stub.paraphrase_repeat
            "What is 2+2?" 2 (Some float_half) None (mkState 0%nat [])).
  vm_compute; reflexivity.
Defined.

(** Correctness mode entered without a reference. *)
Lemma correctness_without_reference_fetches_twice_witness :
  exists r st',
    _evaluate_generations (Stub.llm_constant "Paris") Stub.hosted_attrs
      Stub.paraphrase_repeat Stub.check_exact Stub.descriptor
      "Capital of France?" correctness 5 None None None
      (Some ["France's capital?"]) (mkState 0%nat []) = (inr r, st') /\
    exists g others later,
      LLMEvalResult.perturbed_generations r = g :: others /\
      llm_calls (new_events (mkState 0%nat []) st') =
        (construct_llm_input "Capital of France?" None None default_delimiter,
         inr (LLMEvalResult.reference_generation r))
        :: (construct_llm_input "Capital of France?" None None default_delimiter,
            inr g)
        :: later.
Proof.
  eexists _, _. split; [vm_compute; reflexivity|].
  eapply (correctness_without_reference_fetches_twice
            (Stub.llm_constant "Paris") Stub.hosted_attrs
            Stub.paraphrase_repeat Stub.check_exact Stub.descriptor
            "Capital of France?" 5 None None
            (Some ["France's capital?"]) (mkState 0%nat [])).
  vm_compute; reflexivity.
Defined.

(** The model raises on the first candidate: two model calls, no third. *)
Lemma model_calls_follow_prompts_witness :
  exists res st',
    _evaluate_generations (Stub.llm_failing_at 1 "4") Stub.hosted_attrs
      Stub.paraphrase_repeat Stub.check_exact Stub.descriptor
      "What is 2+2?" robustness 5 (Some "Context:") None None
      (Some ["How much is 2 plus 2?"; "Sum of 2 and 2?"])
      (mkState 0%nat []) = (res, st') /\
    (llm_calls (new_events (mkState 0%nat []) st')).*1
      = ["Context: What is 2+2?"; "Context: How much is 2 plus 2?"] /\
    (llm_calls (new_events (mkState 0%nat []) st')).*1 `prefix_of`
      ([construct_llm_input "What is 2+2?" (Some "Context:") None default_delimiter]
       ++ ((fun p => construct_llm_input p (Some "Context:") None default_delimiter)
             <$> evaluated_prompts robustness "What is 2+2?"
                   (candidate_prompts
                      (Some ["How much is 2 plus 2?"; "Sum of 2 and 2?"])
                      (new_events (mkState 0%nat []) st')))) /\
    (length (llm_calls (new_events (mkState 0%nat []) st'))
     <= 1 + length (evaluated_prompts robustness "What is 2+2?"
                      (candidate_prompts
                         (Some ["How much is 2 plus 2?"; "Sum of 2 and 2?"])
                         (new_events (mkState 0%nat []) st'))))%nat.
Proof.
  eexists _, _. split; [vm_compute; reflexivity|]. split; [reflexivity|].
  eapply (model_calls_follow_prompts (Stub.llm_failing_at 1 "4") Stub.hosted_attrs
            Stub.paraphrase_repeat Stub.check_exact Stub.descriptor
            "What is 2+2?" robustness 5 (Some "Context:") None None
            (Some ["How much is 2 plus 2?"; "Sum of 2 and 2?"])
            (mkState 0%nat [])).
  vm_compute; reflexivity.
Defined.

Lemma llm_echo_answers input w :
  (Stub.llm_echo input w).1 = inr ("Answer to: " +:+ input).
Proof. reflexivity. Qed.

(** A model that answers by its input alone. *)
Lemma deterministic_model_generations_witness :
  exists r st',
    _evaluate_generations Stub.llm_echo Stub.hosted_attrs
      Stub.paraphrase_repeat Stub.check_exact Stub.descriptor
      "What is 2+2?" robustness 5 (Some "Context:") None None
      (Some ["Sum of 2 and 2?"]) (mkState 0%nat []) = (inr r, st') /\
    LLMEvalResult.reference_generation r = "Answer to: Context: What is 2+2?" /\
    LLMEvalResult.perturbed_generations r = ["Answer to: Context: Sum of 2 and 2?"] /\
    LLMEvalResult.reference_generation r =
      "Answer to: "
      +:+ construct_llm_input "What is 2+2?" (Some "Context:") None default_delimiter /\
    LLMEvalResult.perturbed_generations r =
      (fun p => "Answer to: "
                +:+ construct_llm_input p (Some "Context:") None default_delimiter)
        <$> LLMEvalResult.perturbed_prompts r.
Proof.
  eexists _, _. split; [vm_compute; reflexivity|].
  split; [reflexivity|]. split; [reflexivity|].
  eapply (deterministic_model_generations Stub.llm_echo Stub.hosted_attrs
            Stub.paraphrase_repeat Stub.check_exact Stub.descriptor
            (fun input => "Answer to: " +:+ input)
            "What is 2+2?" robustness 5 (Some "Context:") None None
            (Some ["Sum of 2 and 2?"]) (mkState 0%nat [])).
  - exact llm_echo_answers.
  - vm_compute; reflexivity.
Defined.

(** No candidates at all. *)
Lemma empty_candidates_robustness_witness :
  exists r st',
    _evaluate_generations (Stub.llm_constant "4") Stub.hosted_attrs
      Stub.paraphrase_repeat Stub.check_exact Stub.descriptor
      "What is 2+2?" robustness 5 None None None (Some [])
      (mkState 0%nat []) = (inr r, st') /\
    checker_contract Stub.check_exact /\
    LLMEvalResult.perturbed_prompts r = [] /\
    LLMEvalResult.perturbed_generations r = [] /\
    LLMEvalResult.result r = [] /\
    LLMEvalResult.metric r = [] /\
    llm_calls (new_events (mkState 0%nat []) st') =
      reference_fetch None
        (construct_llm_input "What is 2+2?" None None default_delimiter)
        (LLMEvalResult.reference_generation r) /\
    check_calls (new_events (mkState 0%nat []) st')
      = [(LLMEvalResult.reference_generation r, [], inr [])].
Proof.
  eexists _, _. split; [vm_compute; reflexivity|].
  split; [exact check_exact_contract|].
  eapply (empty_candidates_robustness (Stub.llm_constant "4") Stub.hosted_attrs
            Stub.paraphrase_repeat Stub.check_exact Stub.descriptor
            "What is 2+2?" 5 None None None (mkState 0%nat [])).
  - exact check_exact_contract.
  - vm_compute; reflexivity.
Defined.
